(** * pfeexc: error-message transformation (src/main.js)

    A shallow embedding of [transformErrors] and of its helpers, together
    with the part of Immutable.js (3.8 line) and of the JavaScript string
    primitives that the helpers call.

    Conventions of the embedding:
    - a JavaScript string is a [string]; each [ascii] is one code unit in
      the range 0..255;
    - an Immutable [Map] is the list of its entries in iteration order, an
      Immutable [List] the list of its items;
    - a thrown [TypeError] is the [TypeError] outcome of the [result] type;
    - the iteration order of an Immutable [Set] is left abstract beyond
      what the library fixes (class [SetOrder]). *)

From Stdlib Require Import List String Ascii Bool Arith NArith Lia Permutation.
Import ListNotations.

Set Warnings "-register-all".

Local Open Scope string_scope.
Local Open Scope list_scope.

(* ================================================================== *)
(** ** Outcomes: a value or a thrown TypeError *)

Inductive result (A : Type) : Type :=
| Ok (a : A)
| TypeError.

Arguments Ok {A} a.
Arguments TypeError {A}.

Definition bind {A B : Type} (r : result A) (k : A -> result B) : result B :=
  match r with
  | Ok a => k a
  | TypeError => TypeError
  end.

Definition fmap {A B : Type} (f : A -> B) (r : result A) : result B :=
  bind r (fun a => Ok (f a)).

Notation "x <- r ;; k" := (bind r (fun x => k))
  (at level 61, r at next level, right associativity).

(** A callback applied to the items in order; the first throw aborts. *)
Definition mapM {A B : Type} (f : A -> result B) : list A -> result (list B) :=
  fix go (l : list A) : result (list B) :=
    match l with
    | [] => Ok []
    | x :: r => y <- f x ;; ys <- go r ;; Ok (y :: ys)
    end.

(** A predicate applied to the items in order; the first throw aborts. *)
Definition filterM {A : Type} (p : A -> result bool) : list A -> result (list A) :=
  fix go (l : list A) : result (list A) :=
    match l with
    | [] => Ok []
    | x :: r => b <- p x ;; ys <- go r ;; Ok (if b then x :: ys else ys)
    end.

(* ================================================================== *)
(** ** JavaScript string primitives *)

Module Str.

Definition app (a b : string) : string := String.append a b.

(** [Array.prototype.join] on strings: [String.concat] of the library. *)
Definition join (sep : string) (l : list string) : string :=
  String.concat sep l.

(** WhiteSpace and LineTerminator code units below 256:
    TAB, LF, VT, FF, CR, SPACE, NBSP. *)
Definition is_ws (c : ascii) : bool :=
  existsb (N.eqb (N_of_ascii c)) [9; 10; 11; 12; 13; 32; 160]%N.

Fixpoint trim_start (s : string) : string :=
  match s with
  | EmptyString => EmptyString
  | String c r => if is_ws c then trim_start r else s
  end.

Fixpoint trim_end (s : string) : string :=
  match s with
  | EmptyString => EmptyString
  | String c r =>
      match trim_end r with
      | EmptyString => if is_ws c then EmptyString else String c EmptyString
      | r' => String c r'
      end
  end.

(** [String.prototype.trim]. *)
Definition trim (s : string) : string := trim_end (trim_start s).

(** [String.prototype.includes] with a string argument. *)
Fixpoint includes (pat s : string) : bool :=
  prefix pat s ||
  match s with
  | EmptyString => false
  | String _ r => includes pat r
  end.

(** Number of positions of [s] at which [pat] occurs. *)
Fixpoint count_sub (pat s : string) : nat :=
  (if prefix pat s then 1 else 0) +
  match s with
  | EmptyString => 0
  | String _ r => count_sub pat r
  end.

(** [String.prototype.split] with a non-empty string separator:
    [skip] code units of a separator just matched remain to be dropped,
    [cur] is the segment being read. *)
Fixpoint split_go (sep : string) (skip : nat) (cur s : string) : list string :=
  match s with
  | EmptyString => [cur]
  | String c r =>
      match skip with
      | S k => split_go sep k cur r
      | O =>
          if prefix sep s
          then cur :: split_go sep (String.length sep - 1) EmptyString r
          else split_go sep 0 (app cur (String c EmptyString)) r
      end
  end.

Definition split (sep s : string) : list string :=
  split_go sep 0 EmptyString s.

Definition hex_digit (n : N) : ascii :=
  ascii_of_N (if (n <? 10)%N then 48 + n else 87 + n)%N.

Definition dquote : ascii := ascii_of_N 34.
Definition bslash : ascii := ascii_of_N 92.

(** One code unit inside [JSON.stringify] of a string: the quote and the
    backslash are escaped, control characters get their short escape or
    a four-digit lower-case hexadecimal one. *)
Definition json_escape (c : ascii) : string :=
  let n := N_of_ascii c in
  if (n =? 34)%N then String bslash (String dquote EmptyString)
  else if (n =? 92)%N then String bslash (String bslash EmptyString)
  else if (n =? 8)%N then String bslash "b"
  else if (n =? 9)%N then String bslash "t"
  else if (n =? 10)%N then String bslash "n"
  else if (n =? 12)%N then String bslash "f"
  else if (n =? 13)%N then String bslash "r"
  else if (n <? 32)%N
       then String bslash
              (app "u00" (String (hex_digit (n / 16))
                            (String (hex_digit (n mod 16)) EmptyString)))
       else String c EmptyString.

Fixpoint json_body (s : string) : string :=
  match s with
  | EmptyString => EmptyString
  | String c r => app (json_escape c) (json_body r)
  end.

(** [JSON.stringify] of a string. *)
Definition json_quote (s : string) : string :=
  String dquote (app (json_body s) (String dquote EmptyString)).

End Str.

(* ================================================================== *)
(** ** The data: error trees *)

(** What [Immutable.fromJS] builds from the error data: Maps, Lists and
    string leaves. *)
Inductive value : Type :=
| VStr (s : string)
| VList (items : list value)
| VMap (entries : list (string * value)).

Definition entries := list (string * value).

(** The leaves of a list of string messages. *)
Definition leaves (l : list string) : value := VList (map VStr l).

(* ================================================================== *)
(** ** The part of Immutable.js that the program calls *)

Module Imm.

(** [Immutable.Map.isMap]. *)
Definition isMap (v : value) : bool :=
  match v with
  | VMap _ => true
  | _ => false
  end.

Fixpoint lookup (k : string) (m : entries) : option value :=
  match m with
  | [] => None
  | (k', v) :: r => if String.eqb k k' then Some v else lookup k r
  end.

(** [Immutable.is], under a name that is free here: strings by content,
    Lists item by item, Maps entry by entry whatever the order of the
    entries. *)
Fixpoint imm_is (a b : value) {struct a} : bool :=
  match a, b with
  | VStr s, VStr t => String.eqb s t
  | VList l, VList l' =>
      (fix go (l : list value) (l' : list value) {struct l} : bool :=
         match l, l' with
         | [], [] => true
         | x :: r, y :: r' => imm_is x y && go r r'
         | _, _ => false
         end) l l'
  | VMap m, VMap m' =>
      Nat.eqb (List.length m) (List.length m') &&
      (fix go (m : entries) {struct m} : bool :=
         match m with
         | [] => true
         | (k, v) :: r =>
             match lookup k m' with
             | Some v' => imm_is v v'
             | None => false
             end && go r
         end) m
  | _, _ => false
  end.

(** [toString()] of a value met by [join]: a string is itself, a
    collection prints as [List [ ... ]] or [Map { ... }] with its string
    items quoted. *)
Fixpoint toString (v : value) : string :=
  match v with
  | VStr s => s
  | VList [] => "List []"
  | VList l =>
      Str.app "List [ "
        (Str.app
           (Str.join ", "
              (map (fun x => match x with
                             | VStr s => Str.json_quote s
                             | _ => toString x
                             end) l))
           " ]")
  | VMap [] => "Map {}"
  | VMap m =>
      Str.app "Map { "
        (Str.app
           (Str.join ", "
              (map (fun kv : string * value => let (k, x) := kv in
                              Str.app (Str.json_quote k)
                                (Str.app ": "
                                   match x with
                                   | VStr s => Str.json_quote s
                                   | _ => toString x
                                   end)) m))
           " }")
  end.

(** [collection.includes(search)]: some item is the sought value by
    [Immutable.is]. On a string this is [String.prototype.includes], which
    looks for the printed form of its argument. *)
Definition includes (data search : value) : bool :=
  match data with
  | VStr s => Str.includes (toString search) s
  | VList l => existsb (fun x => imm_is x search) l
  | VMap m => existsb (fun kv : string * value => imm_is (snd kv) search) m
  end.

(** The [length] property: the length of a string; on a collection the
    deprecated getter of the 3.x line, which answers the size. *)
Definition length (v : value) : nat :=
  match v with
  | VStr s => String.length s
  | VList l => List.length l
  | VMap m => List.length m
  end.

(** [isEmpty()]: a method of collections only; a string has none. *)
Definition isEmpty (v : value) : result bool :=
  match v with
  | VStr _ => TypeError
  | VList l => Ok (Nat.eqb (List.length l) 0)
  | VMap m => Ok (Nat.eqb (List.length m) 0)
  end.

(** [toList()]: a List is itself, a Map gives the List of its values. *)
Definition toList (v : value) : result (list value) :=
  match v with
  | VStr _ => TypeError
  | VList l => Ok l
  | VMap m => Ok (map snd m)
  end.

(** The leaves below a value, in iteration order: what a deep [flatten]
    puts in place of the value. *)
Fixpoint flat (v : value) : list value :=
  match v with
  | VStr s => [VStr s]
  | VList l => flat_map flat l
  | VMap m => flat_map (fun kv : string * value => let (_, x) := kv in flat x) m
  end.

(** [list.flatten()]: every nested collection is replaced by its items,
    at any depth. *)
Definition flatten (l : list value) : list value := flat_map flat l.

(** A member of a Set: a value, or the fresh [[key, value]] array that
    iterating a Map as a set source yields for one entry. *)
Inductive elem : Type :=
| EVal (v : value)
| EEntry (k : string) (v : value).

(** Membership test of [Set.add]: [Immutable.is] on values; an array is
    only itself, and the entries of one Map have distinct keys. *)
Definition elem_is (a b : elem) : bool :=
  match a, b with
  | EVal x, EVal y => imm_is x y
  | EEntry k _, EEntry k' _ => String.eqb k k'
  | _, _ => false
  end.

(** [toString()] of a member: an array prints its items separated by a
    comma, strings unquoted. *)
Definition elem_toString (e : elem) : string :=
  match e with
  | EVal v => toString v
  | EEntry k v => Str.app k (Str.app "," (toString v))
  end.

(** [set.add(x)]: nothing changes when a member already is [x]. *)
Definition add (eqb : elem -> elem -> bool) (acc : list elem) (x : elem) : list elem :=
  if existsb (eqb x) acc then acc else acc ++ [x].

(** The distinct members in the order of their first insertion. *)
Definition dedup (l : list elem) : list elem :=
  fold_left (add elem_is) l [].

(** The source of members that [Immutable.Set(data)] iterates: the items
    of a List, the entries of a Map, the code units of a non-empty
    string; the empty string is refused with a TypeError. *)
Definition setSource (data : value) : result (list elem) :=
  match data with
  | VStr EmptyString => TypeError
  | VStr s => Ok (map (fun c => EVal (VStr (String c EmptyString))) (list_ascii_of_string s))
  | VList l => Ok (map EVal l)
  | VMap m => Ok (map (fun kv : string * value => EEntry (fst kv) (snd kv)) m)
  end.

(** Iteration order of a Set.  A Set is backed by a Map; up to eight
    members it is an array in insertion order, beyond that a hash trie
    whose order depends on the hashes of the members. *)
Class SetOrder : Type := {
  set_iter : list elem -> list elem;
  set_iter_perm : forall l, Permutation (set_iter l) l;
  set_iter_small : forall l, List.length l <= 8 -> set_iter l = l
}.

(** The order in which a Set built by inserting [l] is iterated. *)
Definition mkSet {SO : SetOrder} (l : list elem) : list elem :=
  set_iter (dedup l).

(** [set.concat(more)]: a new Set from the members followed by [more]. *)
Definition concat {SO : SetOrder} (s more : list elem) : list elem :=
  mkSet (s ++ more).

(** [set.join(sep)]. *)
Definition join (sep : string) (s : list elem) : string :=
  Str.join sep (map elem_toString s).

(** The order that never leaves insertion order. *)
Definition insertion_order : SetOrder :=
  {| set_iter := fun l => l;
     set_iter_perm := fun l => Permutation_refl l;
     set_iter_small := fun l _ => eq_refl |}.

End Imm.

(* ================================================================== *)
(** ** The program: src/main.js *)

Section Program.

Context {SO : Imm.SetOrder}.

(** The separator of [createString]: a period and a space. *)
Definition sep : string := ". ".

(** The sentinel appended by [createString]: the empty string. *)
Definition sentinel : Imm.elem := Imm.EVal (VStr EmptyString).

(** [Immutable.Set(data).concat(['']).join('. ').trim()] *)
Definition createString (data : value) : result value :=
  src <- Imm.setSource data ;;
  Ok (VStr (Str.trim (Imm.join sep (Imm.concat (Imm.mkSet src) [sentinel])))).

(** [data.map(d => Map.isMap(d) ? transformData(d) : createString(d))];
    a string has no [map] method. *)
Fixpoint transformData (data : value) : result value :=
  match data with
  | VStr _ => TypeError
  | VList l =>
      fmap VList
        (mapM (fun d => if Imm.isMap d then transformData d else createString d) l)
  | VMap m =>
      fmap VMap
        (mapM (fun kv : string * value =>
                 let (k, d) := kv in
                 fmap (pair k)
                   (if Imm.isMap d then transformData d else createString d)) m)
  end.

(** The predicate of [getNonEmptyCollections]:
    [data.length || !data.isEmpty()]. *)
Definition hasData (d : value) : result bool :=
  if Nat.eqb (Imm.length d) 0 then fmap negb (Imm.isEmpty d) else Ok true.

(** [data.filter(d => d.length || !d.isEmpty())]; a string has no
    [filter] method. *)
Definition getNonEmptyCollections (data : value) : result value :=
  match data with
  | VStr _ => TypeError
  | VList l => fmap VList (filterM hasData l)
  | VMap m => fmap VMap (filterM (fun kv : string * value => hasData (snd kv)) m)
  end.

(** [data.toList().flatten()] *)
Definition flattenCollection (data : value) : result value :=
  l <- Imm.toList data ;;
  Ok (VList (Imm.flatten l)).

(** [data.includes(Immutable.Map()) || Immutable.Map.isMap(data)] *)
Definition hasMap (data : value) : bool :=
  Imm.includes data (VMap []) || Imm.isMap data.

(** [keysToKeepNested.includes(key)] *)
Definition keepNested (keysToKeepNested : list string) (key : string) : bool :=
  existsb (String.eqb key) keysToKeepNested.

(** [hasMap(data) ? transformData(data) : createString(data)] *)
Definition transformCollection (data : value) : result value :=
  if hasMap data then transformData data else createString data.

(** [flow([getNonEmptyCollections, flattenCollection, transformCollection])] *)
Definition transformCollectionFlat (data : value) : result value :=
  d1 <- getNonEmptyCollections data ;;
  d2 <- flattenCollection d1 ;;
  transformCollection d2.

(** What [transformErrors] does with one entry. *)
Definition transformEntry (keysToKeepNested : list string) (kv : string * value)
  : result (string * value) :=
  let (key, data) := kv in
  fmap (pair key)
    (if keepNested keysToKeepNested key
     then transformCollection data
     else transformCollectionFlat data).

(** [Immutable.Map(errors).map((data, key) => ...)]; [errors] is the Map
    of the errors, given by its entries, and so is the outcome. *)
Definition transformErrors (errors : entries) (keysToKeepNested : list string)
  : result entries :=
  mapM (transformEntry keysToKeepNested) errors.

End Program.

(** The sample of the specification:
    [{ name: { first: ["Required"], last: ["Required", "Too long"] } }]. *)
Definition sample : entries :=
  [("name", VMap [("first", leaves ["Required"]);
                  ("last", leaves ["Required"; "Too long"])])].

(** The distinct messages of a list in the order of their first
    occurrence: what a Set of strings holds in insertion order. *)
Definition add_str (acc : list string) (x : string) : list string :=
  if existsb (String.eqb x) acc then acc else acc ++ [x].

Definition distinct (l : list string) : list string :=
  fold_left add_str l [].

(** A string as a member of a Set. *)
Definition estr (s : string) : Imm.elem := Imm.EVal (VStr s).

(** [s] ends with [suf]. *)
Fixpoint ends_with (suf s : string) : bool :=
  String.eqb suf s ||
  match s with
  | EmptyString => false
  | String _ r => ends_with suf r
  end.

(** [s] begins with a whitespace code unit. *)
Definition starts_ws (s : string) : bool :=
  match s with
  | EmptyString => false
  | String c _ => Str.is_ws c
  end.

(** [s] ends with a whitespace code unit. *)
Fixpoint ends_ws (s : string) : bool :=
  match s with
  | EmptyString => false
  | String c EmptyString => Str.is_ws c
  | String _ r => ends_ws r
  end.

Definition is_str (v : value) : bool :=
  match v with
  | VStr _ => true
  | _ => false
  end.

Definition is_empty_str (v : value) : bool :=
  match v with
  | VStr EmptyString => true
  | _ => false
  end.

(** The Join of the specification, in its words: the distinct values, in
    some order, joined by the separator, nothing left at the end. *)
Definition joined_as_specified (l : list string) (r : result value) : Prop :=
  exists zs, Permutation zs (distinct l) /\
             r = Ok (VStr (Str.trim (Str.join sep zs))).

(** The sentence on the terminal period, in its words: the distinct
    values, in some order, joined by the separator and followed by one
    period. *)
Definition joined_with_period (l : list string) (r : result value) : Prop :=
  exists zs, Permutation zs (distinct l) /\
             r = Ok (VStr (Str.app (Str.join sep zs) ".")).

(** The segments of [s] between separators are exactly the given ones. *)
Definition segments_are (s : string) (segs : list string) : Prop :=
  forall x, In x (Str.split sep s) <-> In x segs.

(** The sentence on occurrences, in its words: the returned string
    contains each input value exactly once. *)
Definition contains_each_once (l : list string) (r : result value) : Prop :=
  exists s, r = Ok (VStr s) /\
            forall x, In x l -> Str.count_sub x s = 1.

(** The code units of a string, each as a string of its own: the items
    that [Immutable.Set] takes from a string. *)
Definition units (s : string) : list string :=
  map (fun c => String c EmptyString) (list_ascii_of_string s).

(** The flattened sample as the specification gives it: one string under
    [name] whose segments are "Required" and "Too long". *)
Definition flat_sample_as_specified (r : result entries) : Prop :=
  exists s, r = Ok [("name", VStr s)] /\
            segments_are s ["Required"; "Too long"].

(** The sample kept nested as the specification gives it. *)
Definition nested_sample_as_specified : entries :=
  [("name", VMap [("first", VStr "Required");
                  ("last", VStr "Required. Too long")])].

(** A second application with the same keys gives the first answer back. *)
Definition stable_on {SO : Imm.SetOrder} (errors : entries) (keys : list string) : Prop :=
  forall r, transformErrors errors keys = Ok r -> transformErrors r keys = Ok r.

(** An order within the contract of [SetOrder] that leaves insertion order
    beyond eight members: the empty string, whose hash is 0, comes first. *)
Definition is_sentinel (e : Imm.elem) : bool :=
  match e with
  | Imm.EVal (VStr EmptyString) => true
  | _ => false
  end.

Definition zero_first (l : list Imm.elem) : list Imm.elem :=
  filter is_sentinel l ++ filter (fun e => negb (is_sentinel e)) l.

Definition sentinel_first_order : Imm.SetOrder.
Proof.
  refine {| Imm.set_iter := fun l => if Nat.leb (List.length l) 8 then l else zero_first l |}.
  - intros l. destruct (Nat.leb (List.length l) 8); [apply Permutation_refl|].
    unfold zero_first. induction l as [|e l IH]; simpl; [constructor|].
    destruct (is_sentinel e); simpl.
    + now constructor.
    + apply Permutation_sym, Permutation_cons_app, Permutation_sym, IH.
  - intros l H. apply Nat.leb_le in H. now rewrite H.
Defined.

(* ================================================================== *)
(** ** Shapes of error trees *)

(** A value with items or code units: what the prune stage keeps. *)
Definition not_empty (d : value) : bool := negb (Nat.eqb (Imm.length d) 0).

(** The items of a List, the values of a Map. *)
Definition children (v : value) : list value :=
  match v with
  | VStr _ => []
  | VList l => l
  | VMap m => map snd m
  end.

(** No empty string at any depth. *)
Fixpoint no_empty_str (v : value) : bool :=
  match v with
  | VStr s => negb (String.eqb s EmptyString)
  | VList l => forallb no_empty_str l
  | VMap m => forallb (fun kv : string * value => let (_, x) := kv in no_empty_str x) m
  end.

(** No List at any depth: a string, or a Map of such values. *)
Fixpoint no_list (v : value) : bool :=
  match v with
  | VStr _ => true
  | VList _ => false
  | VMap m => forallb (fun kv : string * value => let (_, x) := kv in no_list x) m
  end.

(** [s] has a code unit that is not whitespace. *)
Fixpoint has_ink (s : string) : bool :=
  match s with
  | EmptyString => false
  | String c r => negb (Str.is_ws c) || has_ink r
  end.

(** A Map from keys to Lists of messages. *)
Definition message_map (m : list (string * list string)) : entries :=
  map (fun kl : string * list string => (fst kl, leaves (snd kl))) m.

(* ================================================================== *)
(** ** The primitives on small inputs *)

Example trim_both_ends : Str.trim "  a b. " = "a b.".
Proof. reflexivity. Qed.

Example split_segments : Str.split ". " "a. . b. " = ["a"; ""; "b"; ""].
Proof. reflexivity. Qed.

Example includes_printed_map : Str.includes "Map {}" "a Map {}." = true.
Proof. reflexivity. Qed.

Example json_quote_escapes :
  Str.json_body (String (ascii_of_N 10) (String Str.dquote "a")) =
  String Str.bslash (String "n" (String Str.bslash (String Str.dquote "a"))).
Proof. reflexivity. Qed.

Example toString_nested :
  Imm.toString (VList [VList []; VMap []; VList [VMap []]])
  = "List [ List [], Map {}, List [ Map {} ] ]".
Proof. reflexivity. Qed.

Example is_ignores_entry_order :
  Imm.imm_is (VMap [("a", VStr "x"); ("b", VList [])])
             (VMap [("b", VList []); ("a", VStr "x")]) = true.
Proof. reflexivity. Qed.

Example is_keeps_item_order :
  Imm.imm_is (leaves ["x"; "y"]) (leaves ["y"; "x"]) = false.
Proof. reflexivity. Qed.

Example flatten_deep :
  Imm.flatten [VMap [("a", leaves ["x"]); ("b", VMap [])]; VStr "y"; VList [leaves ["z"]]]
  = [VStr "x"; VStr "y"; VStr "z"].
Proof. reflexivity. Qed.

Example dedup_first_seen :
  Imm.dedup [estr "b"; estr "a"; estr "b"; Imm.EVal (VList []); Imm.EVal (VList [])]
  = [estr "b"; estr "a"; Imm.EVal (VList [])].
Proof. reflexivity. Qed.

Example distinct_first_seen : distinct ["b"; "a"; "b"; "c"; "a"] = ["b"; "a"; "c"].
Proof. reflexivity. Qed.

Example createString_code_units :
  createString (SO := Imm.insertion_order) (VStr "abba") = Ok (VStr "a. b.").
Proof. reflexivity. Qed.

Example createString_empty_string :
  createString (SO := Imm.insertion_order) (VStr EmptyString) = TypeError.
Proof. reflexivity. Qed.

Example transformCollection_mixed :
  transformCollection (SO := Imm.insertion_order)
    (VList [VMap [("a", leaves ["x"; "x"])]; VList []; VMap []; VStr "s"])
  = Ok (VList [VMap [("a", VStr "x.")]; VStr EmptyString; VMap []; VStr "s."]).
Proof. reflexivity. Qed.

Example transformErrors_mixed :
  transformErrors (SO := Imm.insertion_order)
    (sample ++ [("email", leaves ["Invalid"; "Invalid"])]) ["name"]
  = Ok [("name", VMap [("first", VStr "Required.");
                       ("last", VStr "Required. Too long.")]);
        ("email", VStr "Invalid.")].
Proof. reflexivity. Qed.

(* ================================================================== *)
(** ** Facts on the string primitives *)

Lemma app_assoc_str (a b c : string) :
  Str.app (Str.app a b) c = Str.app a (Str.app b c).
Proof.
  unfold Str.app. induction a as [|x a IH]; simpl; [reflexivity|].
  now rewrite IH.
Qed.

Lemma app_not_empty (a b : string) :
  b <> EmptyString -> Str.app a b <> EmptyString.
Proof.
  destruct a; simpl; [trivial | discriminate].
Qed.

(** Trimming at the end leaves what precedes a part that is not all
    whitespace. *)
Lemma trim_end_app (a b : string) :
  Str.trim_end b <> EmptyString ->
  Str.trim_end (Str.app a b) = Str.app a (Str.trim_end b).
Proof.
  intros Hb. unfold Str.app.
  induction a as [|x a IH]; [reflexivity|].
  cbn [String.append Str.trim_end]. rewrite IH.
  pose proof (app_not_empty a _ Hb) as Hne. unfold Str.app in Hne.
  destruct (String.append a (Str.trim_end b)); [contradiction | reflexivity].
Qed.

Lemma trim_end_sep (a : string) :
  Str.trim_end (Str.app a sep) = Str.app a ".".
Proof.
  rewrite trim_end_app; [reflexivity | discriminate].
Qed.

Lemma trim_end_idem (s : string) :
  Str.trim_end (Str.trim_end s) = Str.trim_end s.
Proof.
  induction s as [|c s IH]; simpl; [reflexivity|].
  destruct (Str.trim_end s) as [|c' r'] eqn:E.
  - destruct (Str.is_ws c) eqn:W; simpl; [reflexivity | now rewrite W].
  - change (Str.trim_end (String c (String c' r')) = String c (String c' r')).
    cbn [Str.trim_end] in *. remember (Str.trim_end r') as t.
    destruct t; [destruct (Str.is_ws c'); [discriminate|] |]; now rewrite IH.
Qed.

(** A string that trimming at the end leaves alone has only such tails. *)
Lemma trim_end_fixed_tail (c : ascii) (r : string) :
  Str.trim_end (String c r) = String c r -> Str.trim_end r = r.
Proof.
  simpl. destruct (Str.trim_end r) as [|c' r'] eqn:E.
  - destruct (Str.is_ws c); [discriminate|]. intros [= <-]. reflexivity.
  - intros [= <-]. reflexivity.
Qed.

Lemma trim_end_fixed_no_sep (s : string) :
  Str.trim_end s = s -> ends_with sep s = false.
Proof.
  induction s as [|c r IH]; intros H.
  - reflexivity.
  - cbn [ends_with]. rewrite (IH (trim_end_fixed_tail _ _ H)), orb_false_r.
    destruct (String.eqb_spec sep (String c r)) as [E|]; [|reflexivity].
    rewrite <- E in H. discriminate.
Qed.

(** What [trim] answers never ends with the separator. *)
Lemma trim_no_sep (s : string) : ends_with sep (Str.trim s) = false.
Proof.
  apply trim_end_fixed_no_sep, trim_end_idem.
Qed.

Lemma trim_start_fixed (s : string) :
  starts_ws s = false -> Str.trim_start s = s.
Proof.
  destruct s as [|c r]; simpl; [reflexivity|]. now intros ->.
Qed.

Lemma starts_ws_app (a b : string) :
  a <> EmptyString -> starts_ws (Str.app a b) = starts_ws a.
Proof.
  destruct a; [congruence | reflexivity].
Qed.

(** Joining with a last empty item puts one separator at the end. *)
Lemma join_snoc_empty (xs : list string) :
  xs <> [] ->
  Str.join sep (xs ++ [EmptyString]) = Str.app (Str.join sep xs) sep.
Proof.
  induction xs as [|x r IH]; [congruence|]. intros _.
  destruct r as [|y r'].
  - simpl. unfold Str.app. reflexivity.
  - change (Str.join sep ((x :: y :: r') ++ [EmptyString]))
      with (Str.app x (Str.app sep (Str.join sep ((y :: r') ++ [EmptyString])))).
    rewrite IH by discriminate.
    change (Str.join sep (x :: y :: r'))
      with (Str.app x (Str.app sep (Str.join sep (y :: r')))).
    now rewrite !app_assoc_str.
Qed.

Lemma join_starts (x : string) (r : list string) :
  x <> EmptyString -> starts_ws (Str.join sep (x :: r)) = starts_ws x.
Proof.
  intros Hx. destruct r as [|y r']; [reflexivity|].
  change (Str.join sep (x :: y :: r'))
    with (Str.app x (Str.app sep (Str.join sep (y :: r')))).
  now apply starts_ws_app.
Qed.

(* ================================================================== *)
(** ** Facts on the members of a Set *)

Lemma existsb_eqb_In (x : string) (l : list string) :
  existsb (String.eqb x) l = true <-> In x l.
Proof.
  rewrite existsb_exists. split.
  - intros [y [Hy E]]. apply String.eqb_eq in E. now subst.
  - intros H. exists x. split; [assumption | apply String.eqb_refl].
Qed.

Lemma fold_add_str_In (l : list string) :
  forall acc x, In x (fold_left add_str l acc) <-> In x acc \/ In x l.
Proof.
  induction l as [|y l IH]; intros acc x; simpl; [tauto|].
  rewrite IH. unfold add_str.
  destruct (existsb (String.eqb y) acc) eqn:E.
  - apply existsb_eqb_In in E. split; [tauto|].
    intros [H|[<-|H]]; auto.
  - rewrite in_app_iff. simpl. tauto.
Qed.

Lemma fold_add_str_NoDup (l : list string) :
  forall acc, NoDup acc -> NoDup (fold_left add_str l acc).
Proof.
  induction l as [|y l IH]; intros acc H; simpl; [assumption|].
  apply IH. unfold add_str.
  destruct (existsb (String.eqb y) acc) eqn:E; [assumption|].
  apply (Permutation_NoDup (Permutation_cons_append acc y)).
  constructor; [|assumption].
  intros Hin. apply existsb_eqb_In in Hin. congruence.
Qed.

Lemma fold_add_str_fresh (l : list string) :
  forall acc, NoDup (acc ++ l) -> fold_left add_str l acc = acc ++ l.
Proof.
  induction l as [|y l IH]; intros acc H; simpl.
  - now rewrite app_nil_r.
  - unfold add_str. destruct (existsb (String.eqb y) acc) eqn:E.
    + apply existsb_eqb_In in E. apply NoDup_remove_2 in H.
      exfalso. apply H, in_or_app. now left.
    + rewrite IH; rewrite <- app_assoc; [reflexivity | exact H].
Qed.

Lemma distinct_In (l : list string) (x : string) : In x (distinct l) <-> In x l.
Proof.
  unfold distinct. rewrite fold_add_str_In. simpl. tauto.
Qed.

Lemma distinct_NoDup (l : list string) : NoDup (distinct l).
Proof.
  apply fold_add_str_NoDup. constructor.
Qed.

Lemma distinct_fixed (l : list string) : NoDup l -> distinct l = l.
Proof.
  intros H. unfold distinct. now rewrite fold_add_str_fresh.
Qed.

(** Adding the sentinel to distinct messages that lack it puts it last. *)
Lemma distinct_snoc_sentinel (l : list string) :
  ~ In EmptyString l ->
  distinct (distinct l ++ [EmptyString]) = distinct l ++ [EmptyString].
Proof.
  intros H. apply distinct_fixed.
  apply (Permutation_NoDup (Permutation_cons_append (distinct l) EmptyString)).
  constructor; [|apply distinct_NoDup].
  now rewrite distinct_In.
Qed.

Lemma fold_add_length (eqb : Imm.elem -> Imm.elem -> bool) (l : list Imm.elem) :
  forall acc,
    List.length (fold_left (Imm.add eqb) l acc) <= List.length acc + List.length l.
Proof.
  induction l as [|y l IH]; intros acc; simpl; [lia|].
  specialize (IH (Imm.add eqb acc y)). unfold Imm.add in *.
  destruct (existsb (eqb y) acc); [|rewrite length_app in IH; simpl in IH]; lia.
Qed.

Lemma dedup_length (l : list Imm.elem) :
  List.length (Imm.dedup l) <= List.length l.
Proof.
  apply (fold_add_length Imm.elem_is l []).
Qed.

Lemma existsb_estr (x : string) (acc : list string) :
  existsb (Imm.elem_is (estr x)) (map estr acc) = existsb (String.eqb x) acc.
Proof.
  induction acc as [|a acc IH]; simpl; [reflexivity|]. now rewrite IH.
Qed.

Lemma fold_add_estr (l : list string) :
  forall acc,
    fold_left (Imm.add Imm.elem_is) (map estr l) (map estr acc)
    = map estr (fold_left add_str l acc).
Proof.
  induction l as [|y l IH]; intros acc; simpl; [reflexivity|].
  rewrite <- IH. f_equal. unfold Imm.add, add_str.
  rewrite existsb_estr.
  destruct (existsb (String.eqb y) acc); [reflexivity|].
  now rewrite map_app.
Qed.

(** The Set of a list of messages holds the distinct messages. *)
Lemma dedup_estr (l : list string) :
  Imm.dedup (map estr l) = map estr (distinct l).
Proof.
  apply (fold_add_estr l []).
Qed.

Lemma join_estr (zs : list string) :
  Imm.join sep (map estr zs) = Str.join sep zs.
Proof.
  unfold Imm.join. rewrite map_map. simpl. now rewrite map_id.
Qed.

(* ================================================================== *)
(** ** Facts on [createString] *)

Section JoinFacts.

Context {SO : Imm.SetOrder}.

Lemma mkSet_estr (l : list string) :
  exists ys, Imm.mkSet (map estr l) = map estr ys /\ Permutation (distinct l) ys.
Proof.
  unfold Imm.mkSet. rewrite dedup_estr.
  apply Permutation_map_inv, Imm.set_iter_perm.
Qed.

Lemma mkSet_small (l : list Imm.elem) :
  List.length (Imm.dedup l) <= 8 -> Imm.mkSet l = Imm.dedup l.
Proof.
  intros H. unfold Imm.mkSet. now apply Imm.set_iter_small.
Qed.

(** The members joined for a list of messages: a rearrangement of the
    distinct messages, then of those and the sentinel. *)
Lemma createString_leaves (l : list string) :
  exists ys zs,
    Permutation (distinct l) ys /\
    Permutation (distinct (ys ++ [EmptyString])) zs /\
    createString (leaves l) = Ok (VStr (Str.trim (Str.join sep zs))).
Proof.
  unfold createString, leaves. cbn [Imm.setSource bind].
  rewrite map_map. change (fun x : string => Imm.EVal (VStr x)) with estr.
  destruct (mkSet_estr l) as [ys [E P]].
  unfold Imm.concat. rewrite E.
  change [sentinel] with (map estr [EmptyString]). rewrite <- map_app.
  destruct (mkSet_estr (ys ++ [EmptyString])) as [zs [E' P']].
  rewrite E', join_estr. now exists ys, zs.
Qed.

(** With at most seven distinct members the Set and the Set with the
    sentinel are both iterated in insertion order. *)
Lemma createString_small (data : value) (src : list Imm.elem) :
  Imm.setSource data = Ok src ->
  List.length (Imm.dedup src) <= 7 ->
  createString data
  = Ok (VStr (Str.trim (Imm.join sep (Imm.dedup (Imm.dedup src ++ [sentinel]))))).
Proof.
  intros Hs Hl. unfold createString. rewrite Hs. cbn [bind].
  unfold Imm.concat. rewrite (mkSet_small src) by lia.
  rewrite mkSet_small; [reflexivity|].
  etransitivity; [apply dedup_length|]. rewrite length_app. simpl. lia.
Qed.

Lemma createString_leaves_small (l : list string) :
  List.length (distinct l) <= 7 ->
  createString (leaves l)
  = Ok (VStr (Str.trim (Str.join sep (distinct (distinct l ++ [EmptyString]))))).
Proof.
  intros H.
  rewrite (createString_small (leaves l) (map estr l)).
  - rewrite dedup_estr. change [sentinel] with (map estr [EmptyString]).
    now rewrite <- map_app, dedup_estr, join_estr.
  - unfold leaves. cbn [Imm.setSource]. now rewrite map_map.
  - now rewrite dedup_estr, length_map.
Qed.

(** A List always gives a string. *)
Lemma createString_list (l : list value) :
  exists s, createString (VList l) = Ok (VStr s).
Proof.
  unfold createString. cbn [Imm.setSource bind]. eauto.
Qed.

End JoinFacts.

(** Evaluates the joins of at most seven distinct members. *)
Ltac join_small :=
  repeat match goal with
         | |- context [createString ?d] =>
             rewrite (createString_small d _ eq_refl) by (vm_compute; lia)
         end.

(* ================================================================== *)
(** ** Facts on the traversal *)

(** Induction on error trees, through the Lists and the Maps. *)
Lemma value_ind' (P : value -> Prop) :
  (forall s, P (VStr s)) ->
  (forall l, Forall P l -> P (VList l)) ->
  (forall m, Forall (fun kv : string * value => P (snd kv)) m -> P (VMap m)) ->
  forall v, P v.
Proof.
  intros Hs Hl Hm. fix IH 1. intros [s|l|m].
  - apply Hs.
  - apply Hl. induction l as [|x l IHl]; constructor; [apply IH | exact IHl].
  - apply Hm. induction m as [|[k x] m IHm]; constructor; [apply IH | exact IHm].
Qed.

(** A deep flatten leaves strings only. *)
Lemma flat_strs (v : value) : Forall (fun x => is_str x = true) (Imm.flat v).
Proof.
  induction v as [s|l IH|m IH] using value_ind'; cbn [Imm.flat].
  - now constructor.
  - now apply Forall_flat_map.
  - apply Forall_flat_map. eapply Forall_impl; [|exact IH].
    now intros [k x].
Qed.

Lemma flatten_strs (l : list value) :
  Forall (fun x => is_str x = true) (Imm.flatten l).
Proof.
  apply Forall_flat_map, Forall_forall. intros x _. apply flat_strs.
Qed.

(** Only the empty Map is the empty Map for [Immutable.is]. *)
Lemma is_empty_map (x : value) : Imm.imm_is x (VMap []) = true <-> x = VMap [].
Proof.
  destruct x as [s|l|[|[k v] m]]; simpl; split; intros H;
    try discriminate; reflexivity.
Qed.

(** [hasMap] on a List finds an empty Map among the items, nothing else. *)
Lemma hasMap_list (l : list value) : hasMap (VList l) = true <-> In (VMap []) l.
Proof.
  unfold hasMap. cbn [Imm.includes Imm.isMap]. rewrite orb_false_r, existsb_exists.
  split.
  - intros [x [Hin E]]. apply is_empty_map in E. now subst.
  - intros H. exists (VMap []). now split.
Qed.

Lemma hasMap_strs (l : list value) :
  Forall (fun x => is_str x = true) l -> hasMap (VList l) = false.
Proof.
  intros H. destruct (hasMap (VList l)) eqn:E; [|reflexivity].
  apply hasMap_list in E. rewrite Forall_forall in H.
  specialize (H _ E). discriminate.
Qed.

Lemma mapM_error {A B : Type} (f : A -> result B) (l : list A) (x : A) :
  In x l -> f x = TypeError -> mapM f l = TypeError.
Proof.
  intros Hin Hx. induction l as [|y l IH]; [contradiction|].
  cbn [mapM]. destruct Hin as [->|Hin].
  - now rewrite Hx.
  - destruct (f y); [|reflexivity]. cbn [bind]. now rewrite (IH Hin).
Qed.

Lemma mapM_Ok {A B : Type} (f : A -> result B) (l : list A) (r : list B) :
  mapM f l = Ok r -> Forall2 (fun x y => f x = Ok y) l r.
Proof.
  revert r. induction l as [|x l IH]; intros r H; cbn [mapM] in H.
  - injection H as <-. constructor.
  - destruct (f x) as [y|] eqn:Ex; [|discriminate]. cbn [bind] in H.
    destruct (mapM f l) as [ys|]; [|discriminate]. cbn [bind] in H.
    injection H as <-. constructor; [assumption | now apply IH].
Qed.

Lemma Forall2_In_r {A B : Type} (R : A -> B -> Prop) (l : list A) (r : list B) (y : B) :
  Forall2 R l r -> In y r -> exists x, In x l /\ R x y.
Proof.
  induction 1 as [|a b l r Hab _ IH]; intros Hin; [contradiction|].
  destruct Hin as [<-|Hin].
  - exists a. split; [now left | assumption].
  - destruct (IH Hin) as [x [Hx Rx]]. exists x. split; [now right | assumption].
Qed.

Lemma Forall2_In_l {A B : Type} (R : A -> B -> Prop) (l : list A) (r : list B) (x : A) :
  Forall2 R l r -> In x l -> exists y, In y r /\ R x y.
Proof.
  induction 1 as [|a b l r Hab _ IH]; intros Hin; [contradiction|].
  destruct Hin as [<-|Hin].
  - exists b. split; [now left | assumption].
  - destruct (IH Hin) as [y [Hy Ry]]. exists y. split; [now right | assumption].
Qed.

(** The prune stage on a Map: a TypeError when some value is the empty
    string, the entries with a value that is not empty otherwise. *)
Lemma getNonEmptyCollections_map (m : entries) :
  getNonEmptyCollections (VMap m)
  = if existsb (fun kv : string * value => is_empty_str (snd kv)) m
    then TypeError
    else Ok (VMap (filter (fun kv : string * value =>
                             negb (Nat.eqb (Imm.length (snd kv)) 0)) m)).
Proof.
  unfold getNonEmptyCollections, fmap.
  induction m as [|[k v] m IH]; [reflexivity|].
  cbn [filterM existsb filter snd].
  destruct (filterM (fun kv : string * value => hasData (snd kv)) m) as [ys|];
    destruct (existsb (fun kv : string * value => is_empty_str (snd kv)) m);
    cbn [bind] in IH; try discriminate;
    destruct v as [[|c s]|[|x l]|[|e m']]; cbn; try reflexivity.
  all: injection IH as ->; reflexivity.
Qed.

Section TraversalFacts.

Context {SO : Imm.SetOrder}.

(** The flattening path ends in a string whenever it ends. *)
Lemma transformCollectionFlat_string (data r : value) :
  transformCollectionFlat data = Ok r -> exists s, r = VStr s.
Proof.
  unfold transformCollectionFlat, flattenCollection.
  destruct (getNonEmptyCollections data) as [d1|]; [|discriminate].
  cbn [bind]. destruct (Imm.toList d1) as [l|]; [|discriminate].
  cbn [bind]. unfold transformCollection.
  rewrite (hasMap_strs _ (flatten_strs l)).
  destruct (createString_list (Imm.flatten l)) as [s ->].
  intros [= <-]. now exists s.
Qed.

Lemma transformEntry_key (keys : list string) (kv kv' : string * value) :
  transformEntry keys kv = Ok kv' -> fst kv' = fst kv.
Proof.
  destruct kv as [k v]. unfold transformEntry, fmap.
  destruct (if keepNested keys k then transformCollection v
            else transformCollectionFlat v); [|discriminate].
  cbn [bind]. now intros [= <-].
Qed.

(** An empty List or Map is flattened to the empty string. *)
Lemma transformCollectionFlat_empty (v : value) :
  v = VList [] \/ v = VMap [] -> transformCollectionFlat v = Ok (VStr EmptyString).
Proof.
  intros [->| ->]; unfold transformCollectionFlat;
    cbn -[createString]; join_small; reflexivity.
Qed.

End TraversalFacts.

(* ================================================================== *)
(** ** The decision rule: [hasMap], [transformCollection], [transformData] *)

(** C1. The doc comment of [hasMap] promises a check that the collection
    contains a Map or is one. The code asks whether the collection
    includes the empty Map: a List whose only Map has an entry is answered
    [false], and [transformCollection] joins it into a string, the printed
    Map followed by a period. A Map is always answered [true], and a List
    exactly when the empty Map is among its items. *)
Theorem hasMap_misses_nonempty_map :
  hasMap (VList [VMap [("a", leaves ["x"])]]) = false /\
  (forall SO : Imm.SetOrder,
      transformCollection (VList [VMap [("a", leaves ["x"])]])
      = Ok (VStr (Str.app (Imm.toString (VMap [("a", leaves ["x"])])) "."))) /\
  (forall SO : Imm.SetOrder,
      transformData (VList [VMap [("a", leaves ["x"])]])
      = Ok (VList [VMap [("a", VStr "x.")]])) /\
  (forall l, hasMap (VList l) = true <-> In (VMap []) l) /\
  (forall m, hasMap (VMap m) = true).
Proof.
  split; [reflexivity|]. split; [|split; [|split]].
  - intros SO. unfold transformCollection. cbn -[createString].
    join_small. reflexivity.
  - intros SO. cbn -[createString]. join_small. reflexivity.
  - apply hasMap_list.
  - intros m. unfold hasMap. cbn [Imm.isMap]. apply orb_true_r.
Qed.

(** C2. The doc comment of [transformData] promises to go on mapping until
    a List of strings only is met. The code asks of each child whether it
    is a Map, not whether it [hasMap]: a child List that holds a Map, one
    that [hasMap] accepts and [transformCollection] would recurse into, is
    joined into a string, and so is a child List whose Map has an entry.
    What [transformData] answers is never a string
    and is a Map exactly when the node is one. *)
Theorem transformData_joins_list_child :
  forall SO : Imm.SetOrder,
    hasMap (VList [VMap []]) = true /\
    transformCollection (VList [VMap []]) = Ok (VList [VMap []]) /\
    transformData (VMap [("k", VList [VMap []])]) = Ok (VMap [("k", VStr "Map {}.")]) /\
    transformData (VMap [("k", VList [VMap [("a", leaves ["x"])]])])
    = Ok (VMap [("k", VStr (Str.app (Imm.toString (VMap [("a", leaves ["x"])])) "."))]) /\
    (forall data r, transformData data = Ok r ->
                    is_str r = false /\ Imm.isMap r = Imm.isMap data).
Proof.
  intros SO. split; [reflexivity|]. split; [reflexivity|]. split; [|split].
  - cbn -[createString]. join_small. reflexivity.
  - cbn -[createString]. join_small. reflexivity.
  - intros [s|l|m] r; cbn [transformData]; [discriminate| |];
      unfold fmap;
      match goal with |- bind ?x _ = _ -> _ => destruct x end;
      cbn [bind]; try discriminate; intros [= <-]; now split.
Qed.

(* ================================================================== *)
(** ** The prune stage: [getNonEmptyCollections] *)

(** C6. The stage is to return the collections that are not empty, and
    tests [data.length || !data.isEmpty()]. On the empty string the length
    is 0, so [isEmpty] is called on a string, which has no such method:
    the stage throws instead of dropping the entry. It throws exactly when
    some value is the empty string, and otherwise keeps the entries whose
    value is not empty. *)
Theorem getNonEmptyCollections_empty_string_throws :
  getNonEmptyCollections (VMap [("a", VStr EmptyString)]) = TypeError /\
  getNonEmptyCollections (VMap [("a", VStr "x"); ("b", VList []); ("c", VMap [])])
  = Ok (VMap [("a", VStr "x")]) /\
  (forall m,
      getNonEmptyCollections (VMap m)
      = if existsb (fun kv : string * value => is_empty_str (snd kv)) m
        then TypeError
        else Ok (VMap (filter (fun kv : string * value =>
                                 negb (Nat.eqb (Imm.length (snd kv)) 0)) m))).
Proof.
  split; [reflexivity|]. split; [reflexivity|].
  apply getNonEmptyCollections_map.
Qed.

(* ================================================================== *)
(** ** Empty inputs *)

(** C9. [transformErrors] of the empty Map and no key is the empty Map; on
    the flattening path an empty List and an empty Map give the empty
    string, as the join of no message is, and so does every entry of the
    errors that has such a value and a key outside [keysToKeepNested]. *)
Theorem transformErrors_empty (SO : Imm.SetOrder) :
  transformErrors [] [] = Ok [] /\
  createString (leaves []) = Ok (VStr EmptyString) /\
  transformCollectionFlat (VList []) = Ok (VStr EmptyString) /\
  transformCollectionFlat (VMap []) = Ok (VStr EmptyString) /\
  (forall errors keys r k v,
      transformErrors errors keys = Ok r ->
      In (k, v) errors ->
      keepNested keys k = false ->
      v = VList [] \/ v = VMap [] ->
      In (k, VStr EmptyString) r).
Proof.
  split; [reflexivity|].
  split; [join_small; reflexivity|].
  split; [apply transformCollectionFlat_empty; now left|].
  split; [apply transformCollectionFlat_empty; now right|].
  intros errors keys r k v Hr Hin Hk Hv.
  apply mapM_Ok in Hr.
  destruct (Forall2_In_l _ _ _ _ Hr Hin) as [y [Hy E]].
  unfold transformEntry in E. rewrite Hk in E.
  rewrite (transformCollectionFlat_empty v Hv) in E.
  cbn in E. injection E as <-. exact Hy.
Qed.

Lemma transformErrors_empty_witness :
  In ("email", VStr EmptyString)
     [("name", VStr EmptyString); ("email", VStr EmptyString)].
Proof.
  apply (proj2 (proj2 (proj2 (proj2 (transformErrors_empty Imm.insertion_order))))
           [("name", VList []); ("email", VMap [])] []
           [("name", VStr EmptyString); ("email", VStr EmptyString)]
           "email" (VMap [])).
  - reflexivity.
  - simpl. right. left. reflexivity.
  - reflexivity.
  - right. reflexivity.
Defined.

(* ================================================================== *)
(** ** The join: [createString] *)

Lemma trim_end_fixed_no_ws (s : string) :
  Str.trim_end s = s -> ends_ws s = false.
Proof.
  induction s as [|c r IH]; intros H; [reflexivity|].
  pose proof (trim_end_fixed_tail _ _ H) as Hr.
  destruct r as [|c' r'].
  - cbn [Str.trim_end ends_ws] in H |- *.
    destruct (Str.is_ws c); [discriminate | reflexivity].
  - change (ends_ws (String c (String c' r'))) with (ends_ws (String c' r')).
    now apply IH.
Qed.

Lemma trim_no_ws (s : string) : ends_ws (Str.trim s) = false.
Proof.
  apply trim_end_fixed_no_ws, trim_end_idem.
Qed.

Lemma fold_add_str_hd (l : list string) :
  forall a acc, exists r, fold_left add_str l (a :: acc) = a :: r.
Proof.
  induction l as [|y l IH]; intros a acc; simpl; [now exists acc|].
  unfold add_str. destruct (existsb (String.eqb y) (a :: acc)).
  - apply IH.
  - apply (IH a (acc ++ [y])).
Qed.

Lemma distinct_hd (x : string) (t : list string) :
  exists r, distinct (x :: t) = x :: r.
Proof.
  unfold distinct. cbn [fold_left]. apply fold_add_str_hd.
Qed.

Lemma join_cons_not_empty (x : string) (r : list string) :
  x <> EmptyString -> Str.join sep (x :: r) <> EmptyString.
Proof.
  intros Hx. destruct r as [|y r']; [exact Hx|].
  change (Str.join sep (x :: y :: r'))
    with (Str.app x (Str.app sep (Str.join sep (y :: r')))).
  destruct x; [congruence | discriminate].
Qed.

(** The members that [createString] joins for a list of messages: each
    message and the sentinel, once each. *)
Lemma createString_members (SO : Imm.SetOrder) (l : list string) :
  exists zs,
    NoDup zs /\
    (forall x, In x zs <-> In x l \/ x = EmptyString) /\
    createString (leaves l) = Ok (VStr (Str.trim (Str.join sep zs))).
Proof.
  destruct (createString_leaves l) as [ys [zs [P [P' E]]]].
  exists zs. split; [|split; [|exact E]].
  - apply (Permutation_NoDup P'), distinct_NoDup.
  - intros x.
    assert (Hz : In x zs <-> In x (distinct (ys ++ [EmptyString]))).
    { split; apply Permutation_in; [apply Permutation_sym|]; exact P'. }
    assert (Hy : In x ys <-> In x (distinct l)).
    { split; apply Permutation_in; [apply Permutation_sym|]; exact P. }
    rewrite Hz, distinct_In, in_app_iff, Hy, distinct_In. simpl. intuition.
Qed.

(** C3, as the code has it. [createString] joins the distinct messages and
    the sentinel with the separator and trims whitespace, nothing else, at
    both ends: what it answers ends neither with whitespace nor with the
    two characters of the separator, and keeps the period that the
    separator puts before the sentinel. *)
Theorem createString_trims_whitespace_only (SO : Imm.SetOrder) :
  (forall l, exists zs s,
      Permutation zs (distinct (l ++ [EmptyString])) /\
      s = Str.trim (Str.join sep zs) /\
      createString (leaves l) = Ok (VStr s) /\
      ends_with sep s = false /\
      ends_ws s = false) /\
  createString (leaves ["Required"]) = Ok (VStr "Required.") /\
  createString (leaves ["Required"; "Required"]) = Ok (VStr "Required.").
Proof.
  split.
  - intros l. destruct (createString_members SO l) as [zs [N [M E]]].
    exists zs, (Str.trim (Str.join sep zs)).
    split; [|split; [reflexivity|split; [exact E|split]]].
    + apply NoDup_Permutation; [exact N | apply distinct_NoDup|].
      intros x. rewrite M, distinct_In, in_app_iff. simpl. intuition.
    + apply trim_no_sep.
    + apply trim_no_ws.
  - split; rewrite createString_leaves_small by (vm_compute; lia); reflexivity.
Qed.

(** C3, as the specification words it, fails on a single message: the
    answer keeps a period, the Join of the specification has none. *)
Lemma createString_keeps_period :
  ~ exists SO : Imm.SetOrder,
      joined_as_specified ["Required"] (createString (leaves ["Required"])).
Proof.
  intros [SO [zs [P E]]].
  rewrite createString_leaves_small in E by (vm_compute; lia).
  apply Permutation_sym, Permutation_length_1_inv in P. subst zs.
  vm_compute in E. discriminate E.
Qed.

Lemma app_empty_r (a : string) : Str.app a EmptyString = a.
Proof.
  unfold Str.app. induction a as [|x a IH]; simpl; [reflexivity|].
  now rewrite IH.
Qed.

Lemma prefix_app (x b : string) : prefix x (Str.app x b) = true.
Proof.
  unfold Str.app. induction x as [|c x IH]; [now destruct b|].
  cbn [String.append prefix]. now destruct (ascii_dec c c).
Qed.

Lemma includes_prefix (x s : string) :
  prefix x s = true -> Str.includes x s = true.
Proof.
  intros H. destruct s; cbn [Str.includes]; now rewrite H.
Qed.

Lemma includes_app_l (x a t : string) :
  Str.includes x t = true -> Str.includes x (Str.app a t) = true.
Proof.
  intros H. unfold Str.app. induction a as [|c a IH]; [exact H|].
  cbn [String.append Str.includes]. rewrite IH. apply orb_true_r.
Qed.

Lemma includes_mid (x pre post : string) :
  Str.includes x (Str.app pre (Str.app x post)) = true.
Proof.
  apply includes_app_l, includes_prefix, prefix_app.
Qed.

(** A member of a joined list stands in the join. *)
Lemma join_split (x : string) (zs : list string) :
  In x zs ->
  exists pre post, Str.join sep zs = Str.app pre (Str.app x post).
Proof.
  induction zs as [|y r IH]; [contradiction|]. intros [->|H].
  - exists EmptyString. destruct r as [|z r'].
    + exists EmptyString. cbn. now rewrite app_empty_r.
    + exists (Str.app sep (Str.join sep (z :: r'))). reflexivity.
  - destruct r as [|z r']; [contradiction|].
    destruct (IH H) as [pre [post E]].
    exists (Str.app y (Str.app sep pre)), post.
    change (Str.join sep (y :: z :: r'))
      with (Str.app y (Str.app sep (Str.join sep (z :: r')))).
    now rewrite E, !app_assoc_str.
Qed.

Lemma trim_start_keeps (x pre post : string) :
  x <> EmptyString -> starts_ws x = false ->
  exists pre', Str.trim_start (Str.app pre (Str.app x post))
               = Str.app pre' (Str.app x post).
Proof.
  intros Hx Hs. induction pre as [|c p IH].
  - exists EmptyString.
    change (Str.app EmptyString (Str.app x post)) with (Str.app x post).
    apply trim_start_fixed. now rewrite starts_ws_app.
  - change (Str.app (String c p) (Str.app x post))
      with (String c (Str.app p (Str.app x post))).
    cbn [Str.trim_start]. destruct (Str.is_ws c).
    + exact IH.
    + now exists (String c p).
Qed.

Lemma trim_end_fixed_ends (s : string) :
  ends_ws s = false -> Str.trim_end s = s.
Proof.
  induction s as [|c r IH]; [reflexivity|]. intros H.
  destruct r as [|c' r'].
  - cbn [ends_ws Str.trim_end] in *. now rewrite H.
  - change (ends_ws (String c (String c' r'))) with (ends_ws (String c' r')) in H.
    change (Str.trim_end (String c (String c' r')))
      with (match Str.trim_end (String c' r') with
            | EmptyString => if Str.is_ws c then EmptyString else String c EmptyString
            | r0 => String c r0
            end).
    now rewrite (IH H).
Qed.

Lemma trim_end_app_blank (x post : string) :
  Str.trim_end post = EmptyString ->
  Str.trim_end (Str.app x post) = Str.trim_end x.
Proof.
  intros H. unfold Str.app. induction x as [|c r IH]; [exact H|].
  cbn [String.append Str.trim_end]. now rewrite IH.
Qed.

Lemma trim_end_keeps (x post : string) :
  ends_ws x = false ->
  exists post', Str.trim_end (Str.app x post) = Str.app x post'.
Proof.
  intros He. destruct (Str.trim_end post) as [|c t] eqn:E.
  - exists EmptyString.
    now rewrite (trim_end_app_blank _ _ E), (trim_end_fixed_ends _ He), app_empty_r.
  - exists (String c t). rewrite trim_end_app; rewrite E; [reflexivity | discriminate].
Qed.

(** The trim keeps a part that has no whitespace at either end. *)
Lemma trim_includes (x pre post : string) :
  x <> EmptyString -> starts_ws x = false -> ends_ws x = false ->
  Str.includes x (Str.trim (Str.app pre (Str.app x post))) = true.
Proof.
  intros Hx Hs He. unfold Str.trim.
  destruct (trim_start_keeps x pre post Hx Hs) as [pre' ->].
  destruct (trim_end_keeps x post He) as [post' E].
  rewrite trim_end_app; rewrite E; [apply includes_mid|].
  destruct x; [congruence | discriminate].
Qed.

(** A message without whitespace at either end stands in the join. *)
Lemma createString_includes (SO : Imm.SetOrder) (l : list string) (x : string) :
  In x l -> starts_ws x = false -> ends_ws x = false ->
  exists s, createString (leaves l) = Ok (VStr s) /\ Str.includes x s = true.
Proof.
  intros Hin Hs He.
  destruct (createString_members SO l) as [zs [_ [M E]]].
  exists (Str.trim (Str.join sep zs)). split; [exact E|].
  destruct (string_dec x EmptyString) as [->|Hx].
  - apply includes_prefix. now destruct (Str.trim (Str.join sep zs)).
  - destruct (join_split x zs) as [pre [post ->]]; [apply M; now left|].
    now apply trim_includes.
Qed.

(** C8, as the code has it. Each distinct message is joined once: the
    answer is the trimmed join of a list without repetition whose items
    are the messages and the sentinel. A message without whitespace at
    either end therefore stands in the answer, though maybe more than
    once, when it stands inside another message, and a message with
    whitespace at an end may be cut by the trim. For
    ["Required", "Required", "Too short"] the answer holds "Required"
    once and "Too short" once, with the separator between. *)
Theorem createString_each_value_once (SO : Imm.SetOrder) :
  (forall l, exists zs,
      NoDup zs /\
      (forall x, In x zs <-> In x l \/ x = EmptyString) /\
      createString (leaves l) = Ok (VStr (Str.trim (Str.join sep zs)))) /\
  (forall l x,
      In x l -> starts_ws x = false -> ends_ws x = false ->
      exists s, createString (leaves l) = Ok (VStr s) /\
                Str.includes x s = true) /\
  (createString (leaves ["a"; "ab"]) = Ok (VStr "a. ab.") /\
   Str.count_sub "a" "a. ab." = 2) /\
  (createString (leaves [" a"]) = Ok (VStr "a.") /\
   Str.includes " a" "a." = false) /\
  createString (leaves ["Required"; "Required"; "Too short"])
  = Ok (VStr "Required. Too short.") /\
  Str.count_sub "Required" "Required. Too short." = 1 /\
  Str.count_sub "Too short" "Required. Too short." = 1 /\
  Str.includes (Str.app "Required" (Str.app sep "Too short")) "Required. Too short." = true.
Proof.
  split; [apply createString_members|].
  split; [apply createString_includes|].
  split; [split; [|reflexivity]|split; [split; [|reflexivity]|]].
  - rewrite createString_leaves_small by (vm_compute; lia). reflexivity.
  - rewrite createString_leaves_small by (vm_compute; lia). reflexivity.
  - split; [|repeat split; reflexivity].
    rewrite createString_leaves_small by (vm_compute; lia). reflexivity.
Qed.

Lemma createString_each_value_once_witness :
  exists s, createString (SO := Imm.insertion_order)
              (leaves ["Too short"; "Required"; "Too short"]) = Ok (VStr s) /\
            Str.includes "Too short" s = true.
Proof.
  apply (proj1 (proj2 (createString_each_value_once Imm.insertion_order))
           ["Too short"; "Required"; "Too short"] "Too short").
  - now left.
  - reflexivity.
  - reflexivity.
Defined.

(** C8, as stated, fails where a message stands inside another: in the
    answer for ["a", "ab"] the message "a" occurs twice. *)
Lemma createString_value_inside_another :
  ~ exists SO : Imm.SetOrder,
      contains_each_once ["a"; "ab"] (createString (leaves ["a"; "ab"])).
Proof.
  intros [SO [s [E H]]].
  rewrite createString_leaves_small in E by (vm_compute; lia).
  vm_compute in E. injection E as <-.
  specialize (H "a" (or_introl eq_refl)). vm_compute in H. discriminate H.
Qed.

(** C10, as the code has it. For at most seven distinct messages, none
    empty, the first not beginning with whitespace, [createString] answers
    the distinct messages in the order of their first occurrence, joined
    by the separator and followed by one period. *)
Theorem createString_terminal_period (SO : Imm.SetOrder) (l : list string) :
  l <> [] ->
  List.length (distinct l) <= 7 ->
  (forall x, In x l -> x <> EmptyString) ->
  starts_ws (hd EmptyString l) = false ->
  createString (leaves l) = Ok (VStr (Str.app (Str.join sep (distinct l)) ".")).
Proof.
  intros Hne Hlen Hx Hws.
  rewrite createString_leaves_small by exact Hlen.
  rewrite distinct_snoc_sentinel by (intros H; now apply (Hx _ H)).
  destruct l as [|x t]; [congruence|].
  destruct (distinct_hd x t) as [r ->].
  assert (Hxe : x <> EmptyString) by (apply Hx; now left).
  rewrite join_snoc_empty by discriminate.
  unfold Str.trim. rewrite trim_start_fixed, trim_end_sep; [reflexivity|].
  rewrite starts_ws_app by now apply join_cons_not_empty.
  now rewrite join_starts.
Qed.

Lemma createString_terminal_period_witness :
  createString (SO := Imm.insertion_order) (leaves ["Required"; "Too long "; "Required"])
  = Ok (VStr "Required. Too long .").
Proof.
  apply (createString_terminal_period Imm.insertion_order
           ["Required"; "Too long "; "Required"]).
  - discriminate.
  - vm_compute. lia.
  - simpl. intros x [<-|[<-|[<-|[]]]]; discriminate.
  - reflexivity.
Defined.

(** C10, as stated, fails on a message that begins with whitespace: the
    trim takes the leading space away. *)
Lemma createString_trims_leading_whitespace :
  (" a" <> EmptyString /\ ends_ws " a" = false) /\
  ~ exists SO : Imm.SetOrder,
      joined_with_period [" a"] (createString (leaves [" a"])).
Proof.
  split; [split; [discriminate | reflexivity]|].
  intros [SO [zs [P E]]].
  rewrite createString_leaves_small in E by (vm_compute; lia).
  apply Permutation_sym, Permutation_length_1_inv in P. subst zs.
  vm_compute in E. discriminate E.
Qed.

(** Beyond seven distinct messages the contract of [SetOrder] no longer
    puts the sentinel last: under [sentinel_first_order] eight messages
    are joined after it, and no period ends the answer. *)
Remark createString_sentinel_not_last :
  createString (SO := sentinel_first_order)
    (leaves ["a"; "b"; "c"; "d"; "e"; "f"; "g"; "h"])
  = Ok (VStr ". a. b. c. d. e. f. g. h").
Proof.
  vm_compute. reflexivity.
Qed.

(* ================================================================== *)
(** ** The entry point: [transformErrors] *)

Lemma sample_flat_eval (SO : Imm.SetOrder) :
  transformErrors sample [] = Ok [("name", VStr "Required. Too long.")].
Proof.
  unfold transformErrors, sample. cbn -[createString].
  join_small. reflexivity.
Qed.

Lemma sample_nested_eval (SO : Imm.SetOrder) :
  transformErrors sample ["name"]
  = Ok [("name", VMap [("first", VStr "Required.");
                       ("last", VStr "Required. Too long.")])].
Proof.
  unfold transformErrors, sample. cbn -[createString].
  join_small. reflexivity.
Qed.

(** C4, as the code has it. With no key kept the sample gives one string
    under [name], "Required. Too long." with its last period: the
    segments between separators are "Required" and "Too long.". *)
Theorem transformErrors_sample_flat (SO : Imm.SetOrder) :
  transformErrors sample [] = Ok [("name", VStr "Required. Too long.")] /\
  Str.split sep "Required. Too long." = ["Required"; "Too long."] /\
  segments_are "Required. Too long." ["Required"; "Too long."].
Proof.
  split; [apply sample_flat_eval|].
  split; [reflexivity | intros x; reflexivity].
Qed.

(** C4, as stated, fails: "Too long" is no segment of the answer. *)
Lemma transformErrors_sample_flat_segments :
  ~ exists SO : Imm.SetOrder, flat_sample_as_specified (transformErrors sample []).
Proof.
  intros [SO [s [E S]]].
  rewrite sample_flat_eval in E. injection E as <-.
  assert (H : In "Too long" (Str.split sep "Required. Too long.")).
  { apply S. right. left. reflexivity. }
  vm_compute in H. destruct H as [H|[H|[]]]; discriminate H.
Qed.

(** C7, as the code has it. With [name] kept the sample keeps the keys
    [first] and [last] under it, and each List of messages becomes a string
    that ends with a period. *)
Theorem transformErrors_sample_nested (SO : Imm.SetOrder) :
  transformErrors sample ["name"]
  = Ok [("name", VMap [("first", VStr "Required.");
                       ("last", VStr "Required. Too long.")])].
Proof.
  apply sample_nested_eval.
Qed.

(** C7, as stated, fails: the strings of the specification lack the last
    period. *)
Lemma transformErrors_sample_nested_periods :
  ~ exists SO : Imm.SetOrder,
      transformErrors sample ["name"] = Ok nested_sample_as_specified.
Proof.
  intros [SO E]. rewrite sample_nested_eval in E. discriminate E.
Qed.

(** C5, as the code has it. Whatever [transformErrors] answers for a key
    outside [keysToKeepNested] is a string, and a second application with
    the same keys throws as soon as the answer has such a key: the prune
    stage calls [filter] on the string. Under a kept key a string is not
    final either: it goes to [transformCollection], which throws when the
    string is empty or includes the printed empty Map, and joins it
    otherwise as the List of its code units. So "ab." becomes "a. b. ..",
    the empty string answered for an empty List makes the second
    application throw, and a string that is the join of its own code
    units, as "a. ..  .", comes back as it is. The empty Map is answered
    by the empty Map. *)
Theorem transformErrors_twice (SO : Imm.SetOrder) :
  (forall errors keys r,
      transformErrors errors keys = Ok r ->
      (forall k v, In (k, v) r -> keepNested keys k = false -> is_str v = true) /\
      ((exists k v, In (k, v) r /\ keepNested keys k = false) ->
       transformErrors r keys = TypeError)) /\
  (forall keys, transformErrors [] keys = Ok []) /\
  (forall r keys k s,
      In (k, VStr s) r -> keepNested keys k = true ->
      s = EmptyString \/ Str.includes "Map {}" s = true ->
      transformErrors r keys = TypeError) /\
  (forall s, transformCollection (VStr s)
             = if Str.includes "Map {}" s then TypeError
               else createString (VStr s)) /\
  (forall s, s <> EmptyString ->
             createString (VStr s) = createString (leaves (units s))) /\
  (transformErrors [("k", leaves ["ab"])] ["k"] = Ok [("k", VStr "ab.")] /\
   transformErrors [("k", VStr "ab.")] ["k"] = Ok [("k", VStr "a. b. ..")]) /\
  (transformErrors [("k", VList [])] ["k"] = Ok [("k", VStr EmptyString)] /\
   transformErrors [("k", VStr EmptyString)] ["k"] = TypeError) /\
  (transformErrors [("k", leaves ["a"; "."; " "])] ["k"] = Ok [("k", VStr "a. ..  .")] /\
   transformErrors [("k", VStr "a. ..  .")] ["k"] = Ok [("k", VStr "a. ..  .")]).
Proof.
  assert (Hcoll : forall s, transformCollection (VStr s)
                            = if Str.includes "Map {}" s then TypeError
                              else createString (VStr s)).
  { intros s. unfold transformCollection, hasMap.
    cbn [Imm.includes Imm.isMap Imm.toString]. rewrite orb_false_r.
    now destruct (Str.includes "Map {}" s). }
  split; [|split; [reflexivity|split; [|split; [exact Hcoll|split]]]].
  - intros errors keys r Hr.
    assert (Hstr : forall k v, In (k, v) r -> keepNested keys k = false ->
                               is_str v = true).
    { intros k v Hin Hk. apply mapM_Ok in Hr.
      destruct (Forall2_In_r _ _ _ _ Hr Hin) as [[k0 v0] [_ E]].
      pose proof (transformEntry_key _ _ _ E) as Ek. cbn in Ek. subst k0.
      unfold transformEntry, fmap in E. rewrite Hk in E.
      destruct (transformCollectionFlat v0) as [v'|] eqn:Ef; [|discriminate].
      cbn [bind] in E. injection E as <-.
      destruct (transformCollectionFlat_string _ _ Ef) as [s ->]. reflexivity. }
    split; [exact Hstr|].
    intros [k [v [Hin Hk]]].
    apply (mapM_error _ _ (k, v) Hin).
    specialize (Hstr k v Hin Hk). destruct v as [s| |]; try discriminate.
    unfold transformEntry. now rewrite Hk.
  - intros r keys k s Hin Hk Hs.
    apply (mapM_error _ _ (k, VStr s) Hin).
    unfold transformEntry. rewrite Hk, Hcoll.
    destruct Hs as [->|Hs]; [reflexivity | now rewrite Hs].
  - intros s Hs. unfold createString, leaves, units.
    destruct s as [|c s]; [congruence|].
    cbn [Imm.setSource bind]. now rewrite !map_map.
  - split; [split|split; [split|split]].
    + unfold transformErrors. cbn -[createString]. join_small. reflexivity.
    + unfold transformErrors. cbn -[createString]. join_small. reflexivity.
    + unfold transformErrors. cbn -[createString]. join_small. reflexivity.
    + reflexivity.
    + unfold transformErrors. cbn -[createString]. join_small. reflexivity.
    + unfold transformErrors. cbn -[createString]. join_small. reflexivity.
Qed.

Lemma transformErrors_twice_witness :
  transformErrors (SO := Imm.insertion_order) [("email", VStr "Invalid.")] []
  = TypeError.
Proof.
  apply (proj2 (proj1 (transformErrors_twice Imm.insertion_order)
                  [("email", leaves ["Invalid"; "Invalid"])] []
                  [("email", VStr "Invalid.")] eq_refl)).
  exists "email", (VStr "Invalid."). split; [now left | reflexivity].
Defined.

(** C5, as stated, fails on one key with one message: the first answer is
    a string, and the second application throws. *)
Lemma transformErrors_not_idempotent :
  ~ exists SO : Imm.SetOrder, stable_on [("email", leaves ["Invalid"; "Invalid"])] [].
Proof.
  intros [SO H].
  assert (E : transformErrors [("email", leaves ["Invalid"; "Invalid"])] []
              = Ok [("email", VStr "Invalid.")]).
  { unfold transformErrors. cbn -[createString]. join_small. reflexivity. }
  specialize (H _ E). discriminate H.
Qed.

(* ================================================================== *)
(** ** Further facts on the stages *)

Lemma mapM_ext_in {A B : Type} (f g : A -> result B) (l : list A) :
  (forall x, In x l -> f x = g x) -> mapM f l = mapM g l.
Proof.
  induction l as [|x l IH]; intros H; [reflexivity|].
  cbn [mapM]. rewrite (H x (or_introl eq_refl)), IH; [reflexivity|].
  intros y Hy. apply H. now right.
Qed.

Lemma mapM_error_inv {A B : Type} (f : A -> result B) (l : list A) :
  mapM f l = TypeError -> exists x, In x l /\ f x = TypeError.
Proof.
  induction l as [|x l IH]; cbn [mapM]; [discriminate|].
  destruct (f x) as [y|] eqn:Ex; cbn [bind].
  - destruct (mapM f l) as [ys|]; cbn [bind]; [discriminate|].
    intros _. destruct (IH eq_refl) as [z [Hz Ez]].
    exists z. split; [now right | exact Ez].
  - intros _. exists x. split; [now left | exact Ex].
Qed.

Lemma mapM_all_ok {A B : Type} (f : A -> result B) (l : list A) :
  (forall x, In x l -> exists y, f x = Ok y) -> exists r, mapM f l = Ok r.
Proof.
  induction l as [|x l IH]; intros H; [now exists []|].
  destruct (H x (or_introl eq_refl)) as [y Ey].
  destruct IH as [ys Eys]; [intros z Hz; apply H; now right|].
  exists (y :: ys). cbn [mapM]. now rewrite Ey, Eys.
Qed.

Lemma Forall2_map_fst {A : Type} (R : string * A -> string * A -> Prop)
      (l r : list (string * A)) :
  (forall x y, R x y -> fst y = fst x) ->
  Forall2 R l r -> map fst r = map fst l.
Proof.
  intros HR. induction 1 as [|x y l r Hxy _ IH]; [reflexivity|].
  cbn [map]. now rewrite (HR _ _ Hxy), IH.
Qed.

Lemma keepNested_In (keys : list string) (k : string) :
  keepNested keys k = true <-> In k keys.
Proof.
  apply existsb_eqb_In.
Qed.

Lemma hasData_eq (d : value) :
  hasData d = if is_empty_str d then TypeError else Ok (not_empty d).
Proof.
  destruct d as [[|c s]|[|x l]|[|e m]]; reflexivity.
Qed.

Lemma filterM_hasData (l : list value) :
  filterM hasData l
  = if existsb is_empty_str l then TypeError else Ok (filter not_empty l).
Proof.
  induction l as [|d l IH]; [reflexivity|].
  cbn [filterM existsb filter]. rewrite hasData_eq.
  destruct (is_empty_str d); cbn [bind orb]; [reflexivity|].
  cbn [filterM] in IH. rewrite IH.
  destruct (existsb is_empty_str l); reflexivity.
Qed.

(** The prune stage on a List. *)
Lemma getNonEmptyCollections_list (l : list value) :
  getNonEmptyCollections (VList l)
  = if existsb is_empty_str l then TypeError else Ok (VList (filter not_empty l)).
Proof.
  unfold getNonEmptyCollections, fmap. rewrite filterM_hasData.
  destruct (existsb is_empty_str l); reflexivity.
Qed.

Lemma existsb_values (p : value -> bool) (m : entries) :
  existsb (fun kv : string * value => p (snd kv)) m = existsb p (map snd m).
Proof.
  induction m as [|kv m IH]; [reflexivity|]. cbn [existsb map]. now rewrite IH.
Qed.

Lemma filter_values (p : value -> bool) (m : entries) :
  map snd (filter (fun kv : string * value => p (snd kv)) m)
  = filter p (map snd m).
Proof.
  induction m as [|kv m IH]; [reflexivity|]. cbn [filter map].
  destruct (p (snd kv)); cbn [map]; now rewrite IH.
Qed.

Lemma existsb_filter_false {A : Type} (p q : A -> bool) (l : list A) :
  existsb p l = false -> existsb p (filter q l) = false.
Proof.
  induction l as [|x l IH]; [reflexivity|]. cbn [existsb filter].
  intros H. apply orb_false_elim in H as [Hx Hl].
  destruct (q x); cbn [existsb]; [rewrite Hx|]; now apply IH.
Qed.

Lemma filter_idem {A : Type} (p : A -> bool) (l : list A) :
  filter p (filter p l) = filter p l.
Proof.
  induction l as [|x l IH]; [reflexivity|]. cbn [filter].
  destruct (p x) eqn:E; cbn [filter]; [rewrite E|]; now rewrite ?IH.
Qed.

(** What the prune stage drops, empty strings apart, has no leaf. *)
Lemma flatten_filter (l : list value) :
  existsb is_empty_str l = false ->
  Imm.flatten (filter not_empty l) = Imm.flatten l.
Proof.
  unfold Imm.flatten.
  induction l as [|d l IH]; [reflexivity|]. cbn [existsb filter].
  intros H. apply orb_false_elim in H as [Hd Hl].
  destruct (not_empty d) eqn:E; cbn [flat_map]; rewrite (IH Hl); [reflexivity|].
  destruct d as [[|c s]|[|x l']|[|e m]]; try discriminate; reflexivity.
Qed.

Lemma flatten_strs_fixed (l : list value) :
  Forall (fun x => is_str x = true) l -> Imm.flatten l = l.
Proof.
  unfold Imm.flatten. induction 1 as [|x l Hx _ IH]; [reflexivity|].
  cbn [flat_map]. rewrite IH. destruct x; try discriminate. reflexivity.
Qed.

Lemma flat_leaves (l : list string) : Imm.flat (leaves l) = map VStr l.
Proof.
  unfold leaves. cbn [Imm.flat].
  induction l as [|x l IH]; [reflexivity|]. cbn [map flat_map Imm.flat].
  now rewrite IH.
Qed.

Lemma flatten_message_map (m : list (string * list string)) :
  Imm.flatten (map snd (message_map m)) = map VStr (List.concat (map snd m)).
Proof.
  unfold Imm.flatten, message_map.
  induction m as [|[k l] m IH]; [reflexivity|].
  cbn [map flat_map List.concat snd]. now rewrite IH, flat_leaves, map_app.
Qed.

Lemma strs_map_VStr (l : list string) :
  Forall (fun x => is_str x = true) (map VStr l).
Proof.
  induction l; constructor; [reflexivity | assumption].
Qed.

Section StageFacts.

Context {SO : Imm.SetOrder}.

Lemma createString_str (data r : value) :
  createString data = Ok r -> exists s, r = VStr s.
Proof.
  unfold createString. destruct (Imm.setSource data); cbn [bind]; [|discriminate].
  intros [= <-]. eauto.
Qed.

Lemma createString_ok (data : value) :
  data <> VStr EmptyString -> exists s, createString data = Ok (VStr s).
Proof.
  intros H. unfold createString.
  destruct data as [[|c s]|l|m]; cbn [Imm.setSource bind]; eauto. congruence.
Qed.

Lemma transformCollection_strs (l : list value) :
  Forall (fun x => is_str x = true) l ->
  transformCollection (VList l) = createString (VList l).
Proof.
  intros H. unfold transformCollection. now rewrite hasMap_strs.
Qed.

Lemma transformCollectionFlat_list (l : list value) :
  transformCollectionFlat (VList l)
  = if existsb is_empty_str l then TypeError
    else createString (VList (Imm.flatten l)).
Proof.
  unfold transformCollectionFlat. rewrite getNonEmptyCollections_list.
  destruct (existsb is_empty_str l) eqn:E; [reflexivity|].
  cbn [bind]. unfold flattenCollection. cbn [Imm.toList bind].
  rewrite flatten_filter by exact E.
  apply transformCollection_strs, flatten_strs.
Qed.

Lemma transformCollectionFlat_map (m : entries) :
  transformCollectionFlat (VMap m)
  = if existsb is_empty_str (map snd m) then TypeError
    else createString (VList (Imm.flatten (map snd m))).
Proof.
  unfold transformCollectionFlat.
  rewrite getNonEmptyCollections_map, existsb_values.
  destruct (existsb is_empty_str (map snd m)) eqn:E; [reflexivity|].
  cbn [bind]. unfold flattenCollection. cbn [Imm.toList bind].
  rewrite (filter_values not_empty), flatten_filter by exact E.
  apply transformCollection_strs, flatten_strs.
Qed.

Lemma transformData_kind (data r : value) :
  transformData data = Ok r -> is_str r = false /\ Imm.isMap r = Imm.isMap data.
Proof.
  destruct data as [s|l|m]; cbn [transformData]; [discriminate| |];
    unfold fmap;
    match goal with |- bind ?x _ = _ -> _ => destruct x end;
    cbn [bind]; try discriminate; intros [= <-]; now split.
Qed.

End StageFacts.

(* ================================================================== *)
(** ** The entry point, entry by entry *)

(** X1. What [transformErrors] answers has the keys of the errors, in the
    same order: no key is added, dropped or moved. *)
Theorem transformErrors_same_keys (SO : Imm.SetOrder)
        (errors : entries) (keys : list string) (r : entries) :
  transformErrors errors keys = Ok r -> map fst r = map fst errors.
Proof.
  intros H. apply mapM_Ok in H.
  apply (Forall2_map_fst _ _ _ (transformEntry_key keys) H).
Qed.

Lemma transformErrors_same_keys_witness :
  map fst [("name", VMap [("first", VStr "Required.");
                          ("last", VStr "Required. Too long.")]);
           ("email", VStr "Invalid.")]
  = map fst (sample ++ [("email", leaves ["Invalid"; "Invalid"])]).
Proof.
  apply (transformErrors_same_keys Imm.insertion_order
           (sample ++ [("email", leaves ["Invalid"; "Invalid"])]) ["name"]).
  reflexivity.
Defined.

(** X3. [transformErrors] throws exactly when the transformation of some
    entry throws: one bad entry leaves no partial answer. In particular a
    string under a key that is not kept makes the whole call throw. *)
Theorem transformErrors_throws_iff (SO : Imm.SetOrder)
        (errors : entries) (keys : list string) :
  (transformErrors errors keys = TypeError <->
   exists k v, In (k, v) errors /\
               (if keepNested keys k then transformCollection v
                else transformCollectionFlat v) = TypeError) /\
  (forall k s, In (k, VStr s) errors -> keepNested keys k = false ->
               transformErrors errors keys = TypeError).
Proof.
  assert (Hdir : forall k v,
             In (k, v) errors ->
             (if keepNested keys k then transformCollection v
              else transformCollectionFlat v) = TypeError ->
             transformErrors errors keys = TypeError).
  { intros k v Hin E. apply (mapM_error _ _ (k, v) Hin).
    unfold transformEntry. now rewrite E. }
  split; [split|].
  - intros H. apply mapM_error_inv in H as [[k v] [Hin E]].
    exists k, v. split; [exact Hin|].
    unfold transformEntry, fmap in E.
    destruct (if keepNested keys k then transformCollection v
              else transformCollectionFlat v); [discriminate | reflexivity].
  - intros [k [v [Hin E]]]. now apply (Hdir k v).
  - intros k s Hin Hk. apply (Hdir k (VStr s) Hin). now rewrite Hk.
Qed.

(** X4. Only membership in [keysToKeepNested] matters: two lists of keys
    with the same members, in any order, repeated or not, give the same
    answer. *)
Theorem transformErrors_keys_as_set (SO : Imm.SetOrder)
        (errors : entries) (keys keys' : list string) :
  (forall k, In k keys <-> In k keys') ->
  transformErrors errors keys = transformErrors errors keys'.
Proof.
  intros H. apply mapM_ext_in. intros [k v] _.
  unfold transformEntry.
  assert (E : keepNested keys k = keepNested keys' k).
  { destruct (keepNested keys k) eqn:E1, (keepNested keys' k) eqn:E2;
      try reflexivity.
    - apply keepNested_In, H, keepNested_In in E1. congruence.
    - apply keepNested_In, H, keepNested_In in E2. congruence. }
  now rewrite E.
Qed.

Lemma transformErrors_keys_as_set_witness :
  transformErrors (SO := Imm.insertion_order) sample ["name"; "email"]
  = transformErrors (SO := Imm.insertion_order) sample ["email"; "name"; "email"].
Proof.
  apply (transformErrors_keys_as_set Imm.insertion_order sample
           ["name"; "email"] ["email"; "name"; "email"]).
  intros k. simpl. tauto.
Defined.

(* ================================================================== *)
(** ** The flattening pipeline *)

(** X5. On a collection the flattening path throws exactly when one of
    the immediate items is the empty string; otherwise it is the join of
    all the leaves below, and the prune stage changes nothing: what it
    drops has no leaf. On a string it always throws. *)
Theorem transformCollectionFlat_is_join_of_leaves (SO : Imm.SetOrder) :
  (forall l, transformCollectionFlat (VList l)
             = if existsb is_empty_str l then TypeError
               else createString (VList (Imm.flatten l))) /\
  (forall m, transformCollectionFlat (VMap m)
             = if existsb is_empty_str (map snd m) then TypeError
               else createString (VList (Imm.flatten (map snd m)))) /\
  (forall s, transformCollectionFlat (VStr s) = TypeError).
Proof.
  split; [apply transformCollectionFlat_list|].
  split; [apply transformCollectionFlat_map | reflexivity].
Qed.

(** X6. Flattening a Map from keys to Lists of messages joins the messages
    of all the keys together, in the order of the keys: the keys are
    dropped, and a message repeated under two keys is joined into the
    same Set. *)
Theorem transformCollectionFlat_joins_all_keys (SO : Imm.SetOrder)
        (m : list (string * list string)) :
  transformCollectionFlat (VMap (message_map m))
  = createString (leaves (List.concat (map snd m))).
Proof.
  rewrite transformCollectionFlat_map.
  replace (existsb is_empty_str (map snd (message_map m))) with false.
  - now rewrite flatten_message_map.
  - symmetry. unfold message_map.
    induction m as [|[k l] m IH]; [reflexivity | exact IH].
Qed.

(** X7. The prune stage is idempotent: what it answers has no empty item
    left, and pruning it again gives it back. *)
Theorem getNonEmptyCollections_idempotent (data r : value) :
  getNonEmptyCollections data = Ok r ->
  getNonEmptyCollections r = Ok r /\
  Forall (fun c => not_empty c = true) (children r).
Proof.
  destruct data as [s|l|m]; [discriminate| |].
  - rewrite getNonEmptyCollections_list.
    destruct (existsb is_empty_str l) eqn:E; [discriminate|].
    intros [= <-]. split.
    + rewrite getNonEmptyCollections_list, existsb_filter_false by exact E.
      now rewrite filter_idem.
    + cbn [children]. apply Forall_forall. intros x Hx.
      now apply filter_In in Hx.
  - rewrite getNonEmptyCollections_map.
    destruct (existsb _ m) eqn:E; [discriminate|].
    intros [= <-]. split.
    + rewrite getNonEmptyCollections_map.
      rewrite (existsb_filter_false _ _ _ E).
      now rewrite (filter_idem (fun kv : string * value => not_empty (snd kv))).
    + cbn [children]. apply Forall_forall. intros x Hx.
      apply in_map_iff in Hx as [[k v] [<- Hin]].
      now apply filter_In in Hin.
Qed.

Lemma getNonEmptyCollections_idempotent_witness :
  getNonEmptyCollections (VMap [("a", leaves ["x"])]) = Ok (VMap [("a", leaves ["x"])]) /\
  Forall (fun c => not_empty c = true) (children (VMap [("a", leaves ["x"])])).
Proof.
  apply (getNonEmptyCollections_idempotent
           (VMap [("a", leaves ["x"]); ("b", VList []); ("c", VMap [])])).
  reflexivity.
Defined.

(** X8. The prune stage on a List throws exactly when an item is the empty
    string, and otherwise keeps the items that are not empty, in their
    order: non-empty strings, Lists and Maps with an item. *)
Theorem getNonEmptyCollections_on_list (l : list value) :
  getNonEmptyCollections (VList l)
  = if existsb is_empty_str l then TypeError
    else Ok (VList (filter not_empty l)).
Proof.
  apply getNonEmptyCollections_list.
Qed.

(** X9. [flattenCollection] throws on a string only. On a collection it
    answers a List of strings, whatever the depth of the input, and it
    gives that List back when applied to it again. *)
Theorem flattenCollection_strings (data : value) :
  (is_str data = true -> flattenCollection data = TypeError) /\
  (is_str data = false ->
   exists l, flattenCollection data = Ok (VList l) /\
             Forall (fun x => is_str x = true) l /\
             flattenCollection (VList l) = Ok (VList l)).
Proof.
  split.
  - destruct data; try discriminate. reflexivity.
  - intros H. unfold flattenCollection.
    destruct data as [s|l|m]; [discriminate| |]; cbn [Imm.toList bind].
    + exists (Imm.flatten l). split; [reflexivity|].
      split; [apply flatten_strs|].
      now rewrite (flatten_strs_fixed _ (flatten_strs l)).
    + exists (Imm.flatten (map snd m)). split; [reflexivity|].
      split; [apply flatten_strs|].
      now rewrite (flatten_strs_fixed _ (flatten_strs (map snd m))).
Qed.

Lemma flattenCollection_strings_witness :
  exists l,
    flattenCollection (VMap [("a", VList [leaves ["x"]; VMap []]); ("b", VStr "y")])
    = Ok (VList l) /\
    Forall (fun x => is_str x = true) l /\
    flattenCollection (VList l) = Ok (VList l).
Proof.
  apply (proj2 (flattenCollection_strings
                  (VMap [("a", VList [leaves ["x"]; VMap []]); ("b", VStr "y")]))).
  reflexivity.
Defined.

(* ================================================================== *)
(** ** The recursive descent *)

Lemma no_list_map (m : entries) :
  Forall (fun c => no_list c = true) (map snd m) -> no_list (VMap m) = true.
Proof.
  intros H. cbn [no_list]. apply forallb_forall. intros [k x] Hin.
  rewrite Forall_forall in H. apply H.
  apply in_map_iff. now exists (k, x).
Qed.

Section DescentFacts.

Context {SO : Imm.SetOrder}.

(** What the callback of [transformData] answers for a child, Lists
    being gone below the children that are transformed in turn. *)
Lemma child_no_list (x y : value) :
  (forall r, transformData x = Ok r ->
             Forall (fun c => no_list c = true) (children r)) ->
  (if Imm.isMap x then transformData x else createString x) = Ok y ->
  no_list y = true.
Proof.
  intros IH E. destruct (Imm.isMap x) eqn:Hx.
  - pose proof (IH _ E) as Hc.
    destruct (transformData_kind _ _ E) as [_ Hk]. rewrite Hx in Hk.
    destruct y as [s|l|m]; try discriminate.
    now apply no_list_map.
  - destruct (createString_str _ _ E) as [s ->]. reflexivity.
Qed.

Lemma transformData_children (data r : value) :
  transformData data = Ok r ->
  Forall (fun c => no_list c = true) (children r).
Proof.
  revert r. induction data as [s|l IH|m IH] using value_ind'; intros r;
    cbn [transformData]; [discriminate| |]; unfold fmap.
  - destruct (mapM _ l) as [ys|] eqn:E; cbn [bind]; [|discriminate].
    intros [= <-]. cbn [children]. apply mapM_Ok in E.
    induction E as [|x y l ys Exy _ IHE]; constructor.
    + inversion IH; subst. now apply (child_no_list x y).
    + apply IHE. now inversion IH.
  - destruct (mapM _ m) as [ys|] eqn:E; cbn [bind]; [|discriminate].
    intros [= <-]. cbn [children]. apply mapM_Ok in E.
    induction E as [|[k x] [k' y] m ys Exy _ IHE]; cbn [map]; constructor.
    + inversion IH; subst. cbn [snd] in *. unfold fmap in Exy.
      destruct (if Imm.isMap x then transformData x else createString x)
        as [y'|] eqn:Ey; cbn [bind] in Exy; [|discriminate].
      injection Exy as <- <-. now apply (child_no_list x y').
    + apply IHE. now inversion IH.
Qed.

Lemma transformData_ok (v : value) :
  is_str v = false -> no_empty_str v = true -> exists r, transformData v = Ok r.
Proof.
  induction v as [s|l IH|m IH] using value_ind'; intros Hs Hn;
    [discriminate| |]; cbn [transformData no_empty_str] in *.
  - destruct (mapM_all_ok
                (fun d => if Imm.isMap d then transformData d else createString d) l)
      as [ys E].
    + intros x Hx. rewrite Forall_forall in IH.
      pose proof (proj1 (forallb_forall _ _) Hn x Hx) as Hnx.
      destruct (Imm.isMap x) eqn:Hm.
      * apply (IH x Hx); [destruct x; try discriminate; reflexivity | exact Hnx].
      * destruct (createString_ok x) as [s E]; [|now exists (VStr s)].
        intros ->. discriminate.
    + exists (VList ys). now rewrite E.
  - destruct (mapM_all_ok
                (fun kv : string * value =>
                   let (k, d) := kv in
                   fmap (pair k)
                     (if Imm.isMap d then transformData d else createString d)) m)
      as [ys E].
    + intros [k x] Hx. rewrite Forall_forall in IH.
      pose proof (proj1 (forallb_forall _ _) Hn (k, x) Hx) as Hnx.
      cbn beta iota in Hnx. unfold fmap.
      destruct (Imm.isMap x) eqn:Hm.
      * destruct (IH (k, x) Hx) as [y Ey];
          [destruct x; try discriminate; reflexivity | exact Hnx|].
        cbn [snd] in Ey. rewrite Ey. now exists (k, y).
      * destruct (createString_ok x) as [s E].
        { intros ->. discriminate. }
        rewrite E. now exists (k, VStr s).
    + exists (VMap ys). now rewrite E.
Qed.

Lemma no_empty_items (l : list value) :
  forallb no_empty_str l = true -> existsb is_empty_str l = false.
Proof.
  induction l as [|x l IH]; [reflexivity|]. cbn [forallb existsb].
  intros H. apply andb_prop in H as [Hx Hl]. rewrite (IH Hl), orb_false_r.
  destruct x as [[|c s]| |]; try reflexivity. discriminate.
Qed.

Lemma no_empty_values (m : entries) :
  forallb (fun kv : string * value => let (_, x) := kv in no_empty_str x) m = true ->
  existsb is_empty_str (map snd m) = false.
Proof.
  induction m as [|[k x] m IH]; [reflexivity|]. cbn [forallb existsb map snd].
  intros H. apply andb_prop in H as [Hx Hl]. rewrite (IH Hl), orb_false_r.
  destruct x as [[|c s]| |]; try reflexivity. discriminate.
Qed.

Lemma transformCollection_ok (v : value) :
  is_str v = false -> no_empty_str v = true -> exists r, transformCollection v = Ok r.
Proof.
  intros Hs Hn. unfold transformCollection. destruct (hasMap v).
  - now apply transformData_ok.
  - destruct (createString_ok v) as [s E]; [|now exists (VStr s)].
    intros ->. discriminate.
Qed.

Lemma transformCollectionFlat_ok (v : value) :
  is_str v = false -> no_empty_str v = true ->
  exists r, transformCollectionFlat v = Ok r.
Proof.
  intros Hs Hn. destruct v as [s|l|m]; [discriminate| |]; cbn [no_empty_str] in Hn.
  - rewrite transformCollectionFlat_list, (no_empty_items _ Hn).
    destruct (createString_list (Imm.flatten l)) as [s E]. now exists (VStr s).
  - rewrite transformCollectionFlat_map, (no_empty_values _ Hn).
    destruct (createString_list (Imm.flatten (map snd m))) as [s E].
    now exists (VStr s).
Qed.

End DescentFacts.

(** X10. [transformData] keeps the frame of the node: a Map gives a Map
    with the same keys in the same order, a List a List of the same
    length; a string has no [map] method, so the call throws. *)
Theorem transformData_same_frame (SO : Imm.SetOrder) :
  (forall m r, transformData (VMap m) = Ok r ->
               exists m', r = VMap m' /\ map fst m' = map fst m) /\
  (forall l r, transformData (VList l) = Ok r ->
               exists l', r = VList l' /\ List.length l' = List.length l) /\
  (forall s, transformData (VStr s) = TypeError).
Proof.
  split; [|split; [|reflexivity]].
  - intros m r. cbn [transformData]. unfold fmap.
    destruct (mapM _ m) as [ys|] eqn:E; cbn [bind]; [|discriminate].
    intros [= <-]. exists ys. split; [reflexivity|].
    apply mapM_Ok in E. apply (Forall2_map_fst _ _ _ (fun x y H => H)).
    eapply Forall2_impl; [|exact E].
    intros [k x] [k' y] H. unfold fmap in H.
    destruct (if Imm.isMap x then transformData x else createString x);
      cbn [bind] in H; [|discriminate].
    now injection H as <- _.
  - intros l r. cbn [transformData]. unfold fmap.
    destruct (mapM _ l) as [ys|] eqn:E; cbn [bind]; [|discriminate].
    intros [= <-]. exists ys. split; [reflexivity|].
    apply mapM_Ok in E. symmetry. exact (Forall2_length E).
Qed.

(** X11. After [transformData] no List is left below the root: every child
    of the answer is a string or a Map of strings and such Maps, so a Map
    is answered by a Map without any List. A List met below a Map or among
    the items is always joined, whatever it holds. *)
Theorem transformData_no_list_left (SO : Imm.SetOrder) :
  (forall data r, transformData data = Ok r ->
                  Forall (fun c => no_list c = true) (children r)) /\
  (forall m r, transformCollection (VMap m) = Ok r -> no_list r = true).
Proof.
  split; [apply transformData_children|].
  intros m r. unfold transformCollection.
  replace (hasMap (VMap m)) with true
    by (unfold hasMap; cbn [Imm.isMap]; now rewrite orb_true_r).
  intros E. pose proof (transformData_children _ _ E) as Hc.
  destruct (transformData_kind _ _ E) as [_ Hk]. cbn [Imm.isMap] in Hk.
  destruct r as [s|l|m']; try discriminate. now apply no_list_map.
Qed.

(** X12. [transformCollection] of a List is decided by the empty Map
    alone: with an empty Map among the items the answer is a List of the
    same length, without one it is a string, whatever else the List
    holds. *)
Theorem transformCollection_of_list (SO : Imm.SetOrder) (l : list value) :
  (In (VMap []) l ->
   forall r, transformCollection (VList l) = Ok r ->
             exists l', r = VList l' /\ List.length l' = List.length l) /\
  (~ In (VMap []) l -> exists s, transformCollection (VList l) = Ok (VStr s)).
Proof.
  unfold transformCollection. split; intros H.
  - apply hasMap_list in H. rewrite H. intros r.
    cbn [transformData]. unfold fmap.
    destruct (mapM _ l) as [ys|] eqn:E; cbn [bind]; [|discriminate].
    intros [= <-]. exists ys. split; [reflexivity|].
    apply mapM_Ok in E. symmetry. exact (Forall2_length E).
  - destruct (hasMap (VList l)) eqn:E.
    + apply hasMap_list in E. contradiction.
    + apply createString_list.
Qed.

Lemma transformCollection_of_list_witness :
  exists s, transformCollection (SO := Imm.insertion_order)
              (VList [VMap [("a", leaves ["x"])]; leaves ["y"]]) = Ok (VStr s).
Proof.
  apply (proj2 (transformCollection_of_list Imm.insertion_order
                  [VMap [("a", leaves ["x"])]; leaves ["y"]])).
  simpl. intros [H|[H|[]]]; discriminate H.
Defined.

(** X13. Where every value is a List or a Map and no string at any depth
    is empty, [transformErrors] returns: it throws for no choice of the
    keys to keep. *)
Theorem transformErrors_returns (SO : Imm.SetOrder)
        (errors : entries) (keys : list string) :
  (forall k v, In (k, v) errors -> is_str v = false /\ no_empty_str v = true) ->
  exists r, transformErrors errors keys = Ok r.
Proof.
  intros H. apply mapM_all_ok. intros [k v] Hin.
  destruct (H k v Hin) as [Hs Hn]. unfold transformEntry, fmap.
  destruct (keepNested keys k).
  - destruct (transformCollection_ok v Hs Hn) as [r E]. rewrite E. now exists (k, r).
  - destruct (transformCollectionFlat_ok v Hs Hn) as [r E]. rewrite E. now exists (k, r).
Qed.

Lemma transformErrors_returns_witness :
  exists r, transformErrors (SO := Imm.insertion_order) sample ["name"] = Ok r.
Proof.
  apply (transformErrors_returns Imm.insertion_order sample ["name"]).
  intros k v [E|[]]. injection E as <- <-. split; reflexivity.
Defined.

Lemma no_empty_messages (l : list string) :
  ~ In EmptyString l -> existsb is_empty_str (map VStr l) = false.
Proof.
  induction l as [|x l IH]; intros H; [reflexivity|].
  cbn [map existsb]. rewrite IH by (intros Hx; apply H; now right).
  destruct x; [exfalso; apply H; now left | reflexivity].
Qed.

(** X14. For a value that is a List of messages none of which is empty,
    keeping the key nested or not makes no difference: both paths give the
    join of the messages. So on errors made of such Lists the answer does
    not depend on the keys to keep. *)
Theorem transformErrors_keys_irrelevant (SO : Imm.SetOrder)
        (errors : entries) (keys keys' : list string) :
  (forall k v, In (k, v) errors ->
               exists l, v = leaves l /\ ~ In EmptyString l) ->
  transformErrors errors keys = transformErrors errors keys' /\
  (forall k v, In (k, v) errors ->
               transformCollectionFlat v = createString v /\
               transformCollection v = createString v).
Proof.
  intros H.
  assert (Hv : forall k v, In (k, v) errors ->
                           transformCollectionFlat v = createString v /\
                           transformCollection v = createString v).
  { intros k v Hin. destruct (H k v Hin) as [l [-> Hl]]. unfold leaves.
    rewrite transformCollectionFlat_list.
    rewrite (flatten_strs_fixed _ (strs_map_VStr l)).
    rewrite (transformCollection_strs _ (strs_map_VStr l)).
    split; [|reflexivity].
    now rewrite (no_empty_messages l Hl). }
  split; [|exact Hv].
  apply mapM_ext_in. intros [k v] Hin. unfold transformEntry.
  destruct (Hv k v Hin) as [-> ->].
  now destruct (keepNested keys k), (keepNested keys' k).
Qed.

Lemma transformErrors_keys_irrelevant_witness :
  transformErrors (SO := Imm.insertion_order)
    [("email", leaves ["Invalid"; "Invalid"]); ("age", leaves ["Too low"])] []
  = transformErrors (SO := Imm.insertion_order)
      [("email", leaves ["Invalid"; "Invalid"]); ("age", leaves ["Too low"])] ["age"].
Proof.
  apply (transformErrors_keys_irrelevant Imm.insertion_order
           [("email", leaves ["Invalid"; "Invalid"]); ("age", leaves ["Too low"])]
           [] ["age"]).
  intros k v [E|[E|[]]]; injection E as <- <-.
  - exists ["Invalid"; "Invalid"]. split; [reflexivity|].
    simpl. intros [H|[H|[]]]; discriminate H.
  - exists ["Too low"]. split; [reflexivity|].
    simpl. intros [H|[]]; discriminate H.
Defined.

(* ================================================================== *)
(** ** More on the join *)

Lemma trim_start_no_ws (s : string) : starts_ws (Str.trim_start s) = false.
Proof.
  induction s as [|c r IH]; [reflexivity|]. cbn [Str.trim_start].
  destruct (Str.is_ws c) eqn:E; [exact IH | exact E].
Qed.

Lemma trim_end_starts (t : string) :
  starts_ws t = false -> starts_ws (Str.trim_end t) = false.
Proof.
  destruct t as [|c r]; [reflexivity|]. cbn [Str.trim_end starts_ws]. intros H.
  destruct (Str.trim_end r); [now rewrite H | exact H].
Qed.

Lemma trim_end_ink (s : string) :
  has_ink s = true -> Str.trim_end s <> EmptyString.
Proof.
  induction s as [|c r IH]; [discriminate|]. cbn [has_ink Str.trim_end].
  intros H. destruct (Str.trim_end r) eqn:E; [|discriminate].
  destruct (Str.is_ws c); [|discriminate].
  cbn [negb orb] in H. now apply IH in H.
Qed.

Lemma trim_start_ink (s : string) : has_ink (Str.trim_start s) = has_ink s.
Proof.
  induction s as [|c r IH]; [reflexivity|]. cbn [Str.trim_start].
  destruct (Str.is_ws c) eqn:E; [|reflexivity].
  cbn [has_ink]. now rewrite E, IH.
Qed.

Lemma trim_ink (s : string) : has_ink s = true -> Str.trim s <> EmptyString.
Proof.
  intros H. apply trim_end_ink. now rewrite trim_start_ink.
Qed.

Lemma has_ink_app (a b : string) :
  has_ink (Str.app a b) = has_ink a || has_ink b.
Proof.
  unfold Str.app. induction a as [|c a IH]; [reflexivity|].
  cbn [String.append has_ink]. now rewrite IH, orb_assoc.
Qed.

(** Two members joined have the period of the separator between them. *)
Lemma join_two_ink (x y : string) (r : list string) :
  has_ink (Str.join sep (x :: y :: r)) = true.
Proof.
  change (Str.join sep (x :: y :: r))
    with (Str.app x (Str.app sep (Str.join sep (y :: r)))).
  rewrite !has_ink_app. cbn. now rewrite orb_true_r.
Qed.

Lemma distinct_idem (l : list string) : distinct (distinct l) = distinct l.
Proof.
  apply distinct_fixed, distinct_NoDup.
Qed.

Lemma add_str_member (acc : list string) (x : string) :
  In x acc -> add_str acc x = acc.
Proof.
  intros H. unfold add_str.
  now rewrite (proj2 (existsb_eqb_In x acc) H).
Qed.

Lemma distinct_snoc_member (l : list string) (x : string) :
  In x l -> distinct (l ++ [x]) = distinct l.
Proof.
  intros H. unfold distinct. rewrite fold_left_app. cbn [fold_left].
  apply add_str_member. now apply distinct_In.
Qed.

(** The join of a List of messages is decided by the distinct messages
    in the order of their first occurrence. *)
Lemma createString_by_distinct (SO : Imm.SetOrder) (l l' : list string) :
  distinct l = distinct l' -> createString (leaves l) = createString (leaves l').
Proof.
  intros H. unfold createString, leaves. cbn [Imm.setSource bind].
  rewrite !map_map. change (fun x : string => Imm.EVal (VStr x)) with estr.
  unfold Imm.concat, Imm.mkSet. now rewrite !dedup_estr, H.
Qed.

(** X15. Repeating a message changes nothing: a List of messages and the
    List of its distinct messages are joined into the same string, and so
    are a List and the List with one more copy of one of its messages. *)
Theorem createString_ignores_repeats (SO : Imm.SetOrder) (l : list string) :
  createString (leaves (distinct l)) = createString (leaves l) /\
  (forall x, In x l -> createString (leaves (l ++ [x])) = createString (leaves l)).
Proof.
  split.
  - apply createString_by_distinct, distinct_idem.
  - intros x H. now apply createString_by_distinct, distinct_snoc_member.
Qed.

Lemma createString_ignores_repeats_witness :
  createString (SO := Imm.insertion_order) (leaves (["Required"; "Too long"] ++ ["Required"]))
  = createString (SO := Imm.insertion_order) (leaves ["Required"; "Too long"]).
Proof.
  apply (proj2 (createString_ignores_repeats Imm.insertion_order
                  ["Required"; "Too long"]) "Required").
  now left.
Defined.

(** X16. Whatever [createString] answers is a string that neither begins
    nor ends with whitespace, whether the data are a List, a Map or a
    string. *)
Theorem createString_trimmed (SO : Imm.SetOrder) (data r : value) :
  createString data = Ok r ->
  exists s, r = VStr s /\ starts_ws s = false /\ ends_ws s = false.
Proof.
  unfold createString. destruct (Imm.setSource data); cbn [bind]; [|discriminate].
  intros [= <-]. eexists. split; [reflexivity|]. split.
  - apply trim_end_starts, trim_start_no_ws.
  - apply trim_no_ws.
Qed.

Lemma createString_trimmed_witness :
  exists s, VStr "a ." = VStr s /\ starts_ws s = false /\ ends_ws s = false.
Proof.
  apply (createString_trimmed Imm.insertion_order (leaves ["  a "]) (VStr "a .")).
  reflexivity.
Defined.

(** X17. The join of a List of messages is the empty string exactly when
    no message of the List has a code unit: one message that is not empty
    is enough for a separator, and so for a period, to stay. *)
Theorem createString_empty_iff (SO : Imm.SetOrder) (l : list string) :
  createString (leaves l) = Ok (VStr EmptyString) <->
  (forall x, In x l -> x = EmptyString).
Proof.
  destruct (createString_members SO l) as [zs [N [M E]]]. rewrite E.
  split.
  - intros H x Hx. injection H as H.
    destruct (string_dec x EmptyString) as [|Hne]; [assumption|exfalso].
    assert (Hx' : In x zs) by (apply M; now left).
    assert (He : In EmptyString zs) by (apply M; now right).
    destruct zs as [|a [|b r]].
    + contradiction.
    + destruct Hx' as [Ha|[]], He as [Hb|[]]. congruence.
    + revert H. apply trim_ink, join_two_ink.
  - intros H. assert (Hz : forall z, In z zs -> z = EmptyString).
    { intros z Hz. apply M in Hz as [Hz|Hz]; [now apply H | exact Hz]. }
    destruct zs as [|a [|b r]]; [reflexivity| |].
    + now rewrite (Hz a (or_introl eq_refl)).
    + exfalso. inversion N as [|? ? Hnotin _]; subst. apply Hnotin.
      left. rewrite (Hz a (or_introl eq_refl)).
      apply Hz. right. now left.
Qed.

(** X18. An empty message in a List of messages separates the two paths:
    the flattening path throws, since the prune stage meets the empty
    string, while the path of a kept key joins the List into a string. *)
Theorem empty_message_separates_paths (SO : Imm.SetOrder) (l : list string) :
  In EmptyString l ->
  transformCollectionFlat (leaves l) = TypeError /\
  exists s, transformCollection (leaves l) = Ok (VStr s).
Proof.
  intros H. unfold leaves. split.
  - rewrite transformCollectionFlat_list.
    replace (existsb is_empty_str (map VStr l)) with true; [reflexivity|].
    symmetry. apply existsb_exists. exists (VStr EmptyString).
    split; [now apply in_map | reflexivity].
  - rewrite (transformCollection_strs _ (strs_map_VStr l)).
    apply createString_list.
Qed.

Lemma empty_message_separates_paths_witness :
  transformCollectionFlat (SO := Imm.insertion_order) (leaves ["Required"; EmptyString]) = TypeError /\
  exists s, transformCollection (SO := Imm.insertion_order) (leaves ["Required"; EmptyString]) = Ok (VStr s).
Proof.
  apply (empty_message_separates_paths Imm.insertion_order ["Required"; EmptyString]).
  simpl. right. now left.
Defined.
